(** * Print Monitor API: ingestion, query and statistics over the job store

    A shallow embedding of [backend/server.js] and of the [print_jobs] table
    of [init.sql].  The three request handlers are pure functions (or, where
    the SQL leaves the row order open, relations) over an explicit store.

    Modelling conventions.
    - A SQL value of a nullable column is an [option]; [None] is SQL NULL.
      A JavaScript value that may be [undefined] or [null] is an [option]
      too: node-postgres sends both as NULL.
    - Text is a [string] of single-byte characters; ILIKE folds case on the
      letters A-Z only.
    - Timestamps are integers (a count of time units since an epoch); the
      conversion between date strings and timestamps is not modelled, and a
      date parameter is the timestamp its text denotes.
    - Request numbers are the integers their text denotes; JavaScript
      arithmetic on them is exact integer arithmetic, apart from the
      division by zero of [Math.ceil(total / limit)], which is modelled.
      The rounding of JavaScript numbers beyond 2^53 and the 64-bit range
      of LIMIT, OFFSET, COUNT and SUM are outside the model; the ranges of
      the INTEGER, BIGINT, VARCHAR and SERIAL columns are in it.
    - The handlers run one at a time against the store (no interleaving of
      the statements of different requests).

    Beside the handlers, the development covers their callers: the page
    script of the dashboard ([loadData], [displayStats]), the serializer of
    the Windows agent, the methods of the Ubuntu agent that build and send
    the reports, and the two INSERT statements of [init.sql] on the lookup
    tables.  What an agent reads from its system (clock, host name, output
    of commands, fate of a request) is an argument of its functions. *)

From Stdlib Require Import ZArith List Bool Lia String Ascii.
From Stdlib Require Import Permutation Sorted.
Import ListNotations.

Local Open Scope Z_scope.

(** ** The [print_jobs] table *)

(** One row of [print_jobs].  The three NOT NULL text columns are plain
    strings, [id] is the SERIAL primary key; every other column is
    nullable. *)
Record print_job : Type := mk_print_job {
  id            : Z;
  job_id        : option string;
  user_name     : string;
  machine_name  : string;
  printer_name  : string;
  document_name : option string;
  page_count    : option Z;
  print_time    : option Z;
  status        : option string;
  file_size     : option Z;
  created_at    : option Z
}.

(** The store: the rows of [print_jobs] in the order they were inserted and
    the next value of the sequence behind [id SERIAL]. *)
Record store : Type := mk_store {
  rows    : list print_job;
  next_id : Z
}.

Definition empty_store : store := {| rows := []; next_id := 1 |}.

Definition INT4_MIN : Z := -2147483648.
Definition INT4_MAX : Z := 2147483647.
Definition INT8_MIN : Z := -9223372036854775808.
Definition INT8_MAX : Z := 9223372036854775807.

Inductive pg_error : Type :=
| numeric_value_out_of_range
| sequence_exhausted
| string_data_right_truncation
| not_null_violation.

(** A small error monad for the steps of one statement. *)
Definition pg (A : Type) : Type := (pg_error + A)%type.
Definition pg_ret {A} (a : A) : pg A := inr a.
Definition pg_raise {A} (e : pg_error) : pg A := inl e.
Definition pg_bind {A B} (m : pg A) (k : A -> pg B) : pg B :=
  match m with
  | inl e => inl e
  | inr a => k a
  end.

Declare Scope pg_scope.
Delimit Scope pg_scope with pg.
Notation "x <- m ;; k" := (pg_bind m (fun x => k))
  (at level 61, m at next level, right associativity) : pg_scope.

(** A parameter bound to an INTEGER or BIGINT column must be in range. *)
Definition bind_int (lo hi : Z) (v : option Z) : pg (option Z) :=
  match v with
  | None => pg_ret None
  | Some n => if (lo <=? n) && (n <=? hi) then pg_ret (Some n)
              else pg_raise numeric_value_out_of_range
  end.

Fixpoint all_spaces (s : string) : bool :=
  match s with
  | EmptyString => true
  | String c s' => Ascii.eqb c " " && all_spaces s'
  end.

Fixpoint string_take (n : nat) (s : string) : string :=
  match n, s with
  | O, _ => EmptyString
  | S _, EmptyString => EmptyString
  | S n', String c s' => String c (string_take n' s')
  end.

Fixpoint string_drop (n : nat) (s : string) : string :=
  match n, s with
  | O, _ => s
  | S _, EmptyString => EmptyString
  | S n', String _ s' => string_drop n' s'
  end.

(** Storing text into a VARCHAR(n) column: a longer value is an error,
    unless the excess is spaces only, which are cut off. *)
Definition varchar (n : nat) (s : string) : pg string :=
  if (String.length s <=? n)%nat then pg_ret s
  else if all_spaces (string_drop n s) then pg_ret (string_take n s)
  else pg_raise string_data_right_truncation.

Definition varchar_null (n : nat) (v : option string) : pg (option string) :=
  match v with
  | None => pg_ret None
  | Some s => pg_bind (varchar n s) (fun s' => pg_ret (Some s'))
  end.

Definition not_null {A} (v : option A) : pg A :=
  match v with
  | None => pg_raise not_null_violation
  | Some a => pg_ret a
  end.

(** The nine parameters [$1 .. $9] of the INSERT statement. *)
Record insert_params : Type := mk_insert_params {
  p_job_id        : option string;
  p_user_name     : option string;
  p_machine_name  : option string;
  p_printer_name  : option string;
  p_document_name : option string;
  p_page_count    : option Z;
  p_print_time    : option Z;
  p_status        : option string;
  p_file_size     : option Z
}.

(** [INSERT INTO print_jobs (job_id, ..., file_size) VALUES ($1, ..., $9)
    RETURNING *].  Every listed column takes the parameter as it is, NULL
    included: a column DEFAULT applies only to the columns the statement does
    not list, here [id] and [created_at].  [db_now] is CURRENT_TIMESTAMP.
    The outcome is the returned row or an error, and the store afterwards;
    a failed statement adds no row, though it may have consumed a sequence
    value. *)
Definition insert_print_job (db_now : Z) (st : store) (p : insert_params)
  : pg print_job * store :=
  match bind_int INT4_MIN INT4_MAX (p_page_count p) with
  | inl e => (inl e, st)
  | inr pc =>
  match bind_int INT8_MIN INT8_MAX (p_file_size p) with
  | inl e => (inl e, st)
  | inr fs =>
    if INT4_MAX <? next_id st then (inl sequence_exhausted, st)
    else
      let new_id := next_id st in
      let st1 := {| rows := rows st; next_id := new_id + 1 |} in
      let row : pg print_job :=
        (j  <- varchar_null 100 (p_job_id p) ;;
         u' <- varchar_null 100 (p_user_name p) ;;
         m' <- varchar_null 100 (p_machine_name p) ;;
         r' <- varchar_null 200 (p_printer_name p) ;;
         d  <- varchar_null 500 (p_document_name p) ;;
         s  <- varchar_null 50 (p_status p) ;;
         u  <- not_null u' ;;
         m  <- not_null m' ;;
         r  <- not_null r' ;;
         pg_ret {| id := new_id; job_id := j; user_name := u;
                   machine_name := m; printer_name := r; document_name := d;
                   page_count := pc; print_time := p_print_time p;
                   status := s; file_size := fs;
                   created_at := Some db_now |})%pg in
      match row with
      | inl e => (inl e, st1)
      | inr r => (inr r, {| rows := rows st1 ++ [r]; next_id := next_id st1 |})
      end
  end end.

(** ** POST /api/print-jobs *)

(** [req.body]: the fields the handler destructures.  [None] is an absent
    (or null) field; for [printTime], [None] stands for any falsy value,
    the empty string included. *)
Module Body.
Record t : Type := mk {
  jobId        : option string;
  userName     : option string;
  machineName  : option string;
  printerName  : option string;
  documentName : option string;
  pageCount    : option Z;
  printTime    : option Z;
  status       : option string;
  fileSize     : option Z
}.
End Body.

(** [a || b] on a value that is falsy exactly when it is [None]. *)
Definition js_or {A} (a : option A) (b : A) : A :=
  match a with
  | Some x => x
  | None => b
  end.

Inductive post_response : Type :=
| Created (data : print_job)   (* 201 { success: true, data } *)
| SaveFailed.                  (* 500 { success: false, error } *)

Definition post_http_status (r : post_response) : Z :=
  match r with
  | Created _ => 201
  | SaveFailed => 500
  end.

Definition post_success (r : post_response) : bool :=
  match r with
  | Created _ => true
  | SaveFailed => false
  end.

Definition post_error (r : post_response) : option string :=
  match r with
  | Created _ => None
  | SaveFailed => Some "Failed to save print job"%string
  end.

(** The parameter array of the handler: every field as received, except
    [printTime || new Date()]. *)
Definition post_params (now : Z) (b : Body.t) : insert_params :=
  {| p_job_id := Body.jobId b;
     p_user_name := Body.userName b;
     p_machine_name := Body.machineName b;
     p_printer_name := Body.printerName b;
     p_document_name := Body.documentName b;
     p_page_count := Body.pageCount b;
     p_print_time := Some (js_or (Body.printTime b) now);
     p_status := Body.status b;
     p_file_size := Body.fileSize b |}.

(** The handler: [now] is the server's [new Date()], [db_now] the
    database's CURRENT_TIMESTAMP.  Any error of the statement goes to the
    [catch] branch. *)
Definition post_print_jobs (now db_now : Z) (st : store) (b : Body.t)
  : post_response * store :=
  match insert_print_job db_now st (post_params now b) with
  | (inr r, st') => (Created r, st')
  | (inl _, st') => (SaveFailed, st')
  end.

(** The stores that ingestion builds from the empty one. *)
Inductive reachable : store -> Prop :=
| reachable_empty : reachable empty_store
| reachable_post now db_now st b resp st' :
    reachable st ->
    post_print_jobs now db_now st b = (resp, st') ->
    reachable st'.

(** ** ILIKE *)

Definition lower_ascii (c : ascii) : ascii :=
  let n := nat_of_ascii c in
  if ((65 <=? n) && (n <=? 90))%nat then ascii_of_nat (n + 32) else c.

Fixpoint lower (s : string) : string :=
  match s with
  | EmptyString => EmptyString
  | String c s' => String (lower_ascii c) (lower s')
  end.

(** The elements of a LIKE pattern: [%], [_], a character standing for
    itself (written plainly or after the escape character [\]), and an
    escape character with nothing after it. *)
Inductive like_token : Type :=
| any_string
| any_char
| literal (c : ascii)
| dangling_escape.

Definition percent : ascii := "%".
Definition underscore : ascii := "_".
Definition backslash : ascii := "\".

Fixpoint like_tokens (p : string) : list like_token :=
  match p with
  | EmptyString => []
  | String c p' =>
      if Ascii.eqb c backslash then
        match p' with
        | EmptyString => [dangling_escape]
        | String c' p'' => literal c' :: like_tokens p''
        end
      else if Ascii.eqb c percent then any_string :: like_tokens p'
      else if Ascii.eqb c underscore then any_char :: like_tokens p'
      else literal c :: like_tokens p'
  end.

(** Matching a whole string against a pattern.  PostgreSQL raises an error
    when matching reaches a trailing escape character; here it matches
    nothing.  The patterns of the handlers end in [%] and have no trailing
    escape (lemma [like_tokens_contains_pattern]). *)
Fixpoint like_match (ts : list like_token) (s : string) : bool :=
  match ts with
  | [] => match s with EmptyString => true | String _ _ => false end
  | literal c :: ts' =>
      match s with
      | EmptyString => false
      | String c' s' => Ascii.eqb c c' && like_match ts' s'
      end
  | any_char :: ts' =>
      match s with
      | EmptyString => false
      | String _ s' => like_match ts' s'
      end
  | any_string :: ts' =>
      (fix skip (s : string) : bool :=
         like_match ts' s ||
         match s with
         | EmptyString => false
         | String _ s' => skip s'
         end) s
  | dangling_escape :: _ => false
  end.

(** [s ILIKE pat]: LIKE on the lower-cased pattern and string. *)
Definition ilike (s pat : string) : bool :=
  like_match (like_tokens (lower pat)) (lower s).

(** The tokens of a text that stands for itself. *)
Fixpoint literals (x : string) : list like_token :=
  match x with
  | EmptyString => []
  | String c x' => literal c :: literals x'
  end.

(** The template literal [`%${x}%`]. *)
Definition contains_pattern (x : string) : string :=
  String percent (x ++ String percent EmptyString).

(** ** Three-valued conditions *)

Definition sql_bool : Type := option bool.

Definition sql_and (a b : sql_bool) : sql_bool :=
  match a, b with
  | Some false, _ | _, Some false => Some false
  | Some true, Some true => Some true
  | _, _ => None
  end.

Definition sql_or (a b : sql_bool) : sql_bool :=
  match a, b with
  | Some true, _ | _, Some true => Some true
  | Some false, Some false => Some false
  | _, _ => None
  end.

Definition sql_ilike (v : option string) (pat : string) : sql_bool :=
  option_map (fun s => ilike s pat) v.

Definition sql_ge (v : option Z) (bound : Z) : sql_bool :=
  option_map (fun t => bound <=? t) v.

Definition sql_le (v : option Z) (bound : Z) : sql_bool :=
  option_map (fun t => t <=? bound) v.

(** A WHERE clause keeps the rows on which it is true (not false, not
    NULL). *)
Definition is_true (b : sql_bool) : bool :=
  match b with
  | Some true => true
  | _ => false
  end.

(** ** GET /api/print-jobs *)

(** [req.query].  The text filters are as received; a date is [None] when
    absent or empty; [page] and [limit] are [None] when absent. *)
Module Query.
Record t : Type := mk {
  page      : option Z;
  limit     : option Z;
  user      : option string;
  printer   : option string;
  startDate : option Z;
  endDate   : option Z;
  search    : option string
}.
End Query.

(** [if (x)] on an optional string: absent and empty are both falsy. *)
Definition truthy (v : option string) : option string :=
  match v with
  | Some EmptyString => None
  | Some s => Some s
  | None => None
  end.

Definition clause : Type := print_job -> sql_bool.

(** One optional fragment [AND ...] of the statement under construction. *)
Definition fragment {A} (v : option A) (c : A -> clause) : list clause :=
  match v with
  | Some x => [c x]
  | None => []
  end.

(** The fragments appended to [WHERE 1=1], in the order of the handler. *)
Definition where_fragments (q : Query.t) : list clause :=
  fragment (truthy (Query.user q))
    (fun u r => sql_ilike (Some (user_name r)) (contains_pattern u)) ++
  fragment (truthy (Query.printer q))
    (fun p r => sql_ilike (Some (printer_name r)) (contains_pattern p)) ++
  fragment (Query.startDate q)
    (fun d r => sql_ge (print_time r) d) ++
  fragment (Query.endDate q)
    (fun d r => sql_le (print_time r) d) ++
  fragment (truthy (Query.search q))
    (fun s r => sql_or (sql_ilike (document_name r) (contains_pattern s))
                       (sql_ilike (Some (user_name r)) (contains_pattern s))).

(** [WHERE 1=1 AND c1 AND ... AND cn] on one row. *)
Definition where_clause (cs : list clause) (r : print_job) : sql_bool :=
  fold_left (fun acc c => sql_and acc (c r)) cs (Some true).

Definition selected (q : Query.t) (r : print_job) : bool :=
  is_true (where_clause (where_fragments q) r).

(** The rows the WHERE clause of the request keeps. *)
Definition matching (st : store) (q : Query.t) : list print_job :=
  filter (selected q) (rows st).

(** [a] may stand before [b] under ORDER BY ... DESC: NULL sorts first,
    then the larger value. *)
Definition desc_before (a b : option Z) : bool :=
  match a, b with
  | None, _ => true
  | Some _, None => false
  | Some x, Some y => y <=? x
  end.

(** The order of two items under ORDER BY ... DESC. *)
Definition descending {A} (key : A -> option Z) (a b : A) : Prop :=
  desc_before (key a) (key b) = true.

(** The possible outcomes of [ORDER BY key DESC] on [l]: every arrangement
    of [l] in which the keys descend.  The statement names no other sort
    key, so the order among rows of equal key is open. *)
Definition order_by_desc {A} (key : A -> option Z) (l out : list A) : Prop :=
  Permutation l out /\ StronglySorted (descending key) out.

(** One such arrangement, computed: insertion sort that keeps rows of equal
    key in their order in [l]. *)
Fixpoint insert_desc {A} (key : A -> option Z) (a : A) (l : list A) : list A :=
  match l with
  | [] => [a]
  | b :: l' => if desc_before (key a) (key b) then a :: b :: l'
               else b :: insert_desc key a l'
  end.

Fixpoint sort_desc {A} (key : A -> option Z) (l : list A) : list A :=
  match l with
  | [] => []
  | a :: l' => insert_desc key a (sort_desc key l')
  end.

Inductive select_error : Type :=
| negative_limit
| negative_offset.

(** [LIMIT n OFFSET m] on an ordered result. *)
Definition limit_offset {A} (n m : Z) (l : list A) : list A :=
  firstn (Z.to_nat n) (skipn (Z.to_nat m) l).

(** [SELECT * FROM print_jobs WHERE ... ORDER BY print_time DESC LIMIT n
    OFFSET m]: the store rejects a negative LIMIT or OFFSET, and otherwise
    returns a slice of one of the admissible orders. *)
Inductive select_page (st : store) (q : Query.t) (n m : Z)
  : select_error + list print_job -> Prop :=
| select_negative_limit :
    n < 0 -> select_page st q n m (inl negative_limit)
| select_negative_offset :
    0 <= n -> m < 0 -> select_page st q n m (inl negative_offset)
| select_rows (l : list print_job) :
    0 <= n -> 0 <= m ->
    order_by_desc print_time (matching st q) l ->
    select_page st q n m (inr (limit_offset n m l)).

(** The fragments appended to the count statement, built a second time by
    the handler. *)
Definition count_fragments (q : Query.t) : list clause :=
  fragment (truthy (Query.user q))
    (fun u r => sql_ilike (Some (user_name r)) (contains_pattern u)) ++
  fragment (truthy (Query.printer q))
    (fun p r => sql_ilike (Some (printer_name r)) (contains_pattern p)) ++
  fragment (Query.startDate q)
    (fun d r => sql_ge (print_time r) d) ++
  fragment (Query.endDate q)
    (fun d r => sql_le (print_time r) d) ++
  fragment (truthy (Query.search q))
    (fun s r => sql_or (sql_ilike (document_name r) (contains_pattern s))
                       (sql_ilike (Some (user_name r)) (contains_pattern s))).

(** [SELECT COUNT( * ) FROM print_jobs WHERE ...]. *)
Definition count_matching (st : store) (q : Query.t) : Z :=
  Z.of_nat (List.length
    (filter (fun r => is_true (where_clause (count_fragments q) r)) (rows st))).

(** A JavaScript number that came out of a division of integers. *)
Inductive js_number : Type :=
| js_int (n : Z)
| js_infinity
| js_neg_infinity
| js_nan.

(** [Math.ceil(a / b)]. *)
Definition js_ceil_div (a b : Z) : js_number :=
  if b =? 0 then
    if a =? 0 then js_nan
    else if 0 <? a then js_infinity else js_neg_infinity
  else js_int (- ((- a) / b)).

(** The [pagination] object of the response. *)
Module Pagination.
Record t : Type := mk {
  page  : Z;
  limit : Z;
  total : Z;
  pages : js_number
}.
End Pagination.

Inductive get_response : Type :=
| JobsOk (data : list print_job) (pagination : Pagination.t)
    (* { success: true, data, pagination } *)
| FetchFailed.
    (* 500 { success: false, error } *)


Definition page_of (q : Query.t) : Z := js_or (Query.page q) 1.
Definition limit_of (q : Query.t) : Z := js_or (Query.limit q) 50.
Definition offset_of (q : Query.t) : Z := (page_of q - 1) * limit_of q.

Definition pagination_of (st : store) (q : Query.t) : Pagination.t :=
  {| Pagination.page := page_of q;
     Pagination.limit := limit_of q;
     Pagination.total := count_matching st q;
     Pagination.pages := js_ceil_div (count_matching st q) (limit_of q) |}.

(** The handler: an error of the first statement goes to [catch]. *)
Inductive get_print_jobs (st : store) (q : Query.t) : get_response -> Prop :=
| get_failed (e : select_error) :
    select_page st q (limit_of q) (offset_of q) (inl e) ->
    get_print_jobs st q FetchFailed
| get_ok (data : list print_job) :
    select_page st q (limit_of q) (offset_of q) (inr data) ->
    get_print_jobs st q (JobsOk data (pagination_of st q)).

(** The handler computed with [sort_desc] as the store's order. *)
Definition get_print_jobs_run (st : store) (q : Query.t) : get_response :=
  if (limit_of q <? 0) || (offset_of q <? 0) then FetchFailed
  else JobsOk (limit_offset (limit_of q) (offset_of q)
                 (sort_desc print_time (matching st q)))
              (pagination_of st q).

(** ** GET /api/stats *)

Module StatsQuery.
Record t : Type := mk {
  startDate : option Z;
  endDate   : option Z
}.
End StatsQuery.

(** [dateFilter]: a WHERE clause only when both bounds are given. *)
Definition date_filter (q : StatsQuery.t) (r : print_job) : bool :=
  match StatsQuery.startDate q, StatsQuery.endDate q with
  | Some s, Some e =>
      is_true (sql_and (sql_ge (print_time r) s) (sql_le (print_time r) e))
  | _, _ => true
  end.

Definition in_window (st : store) (q : StatsQuery.t) : list print_job :=
  filter (date_filter q) (rows st).

(** SUM over a column: NULLs are skipped, and the sum is NULL when no
    value is left. *)
Fixpoint sql_sum (l : list (option Z)) : option Z :=
  match l with
  | [] => None
  | None :: l' => sql_sum l'
  | Some x :: l' =>
      match sql_sum l' with
      | None => Some x
      | Some y => Some (x + y)
      end
  end.

Definition sql_count {A} (l : list A) : Z := Z.of_nat (List.length l).

(** One output row of a GROUP BY statement: the grouping name with
    [COUNT( * ) as job_count] and [SUM(page_count) as page_count]. *)
Module Group.
Record t : Type := mk {
  name       : string;
  job_count  : Z;
  page_count : option Z
}.
End Group.

(** The rows of [l] in the group of name [n]. *)
Definition jobs_of (by_name : print_job -> string) (l : list print_job)
  (n : string) : list print_job :=
  filter (fun r => String.eqb (by_name r) n) l.

Definition aggregate (by_name : print_job -> string) (l : list print_job)
  (n : string) : Group.t :=
  {| Group.name := n;
     Group.job_count := sql_count (jobs_of by_name l n);
     Group.page_count := sql_sum (map page_count (jobs_of by_name l n)) |}.

(** [GROUP BY by_name]: one output row per distinct name. *)
Definition group_by (by_name : print_job -> string) (l : list print_job)
  : list Group.t :=
  map (aggregate by_name l) (nodup string_dec (map by_name l)).

(** [... GROUP BY user_name ORDER BY page_count DESC LIMIT 10]; the name
    [page_count] in ORDER BY is the output column, the sum. *)
Definition top_users (l : list print_job) (out : list Group.t) : Prop :=
  exists sorted,
    order_by_desc Group.page_count (group_by user_name l) sorted /\
    out = firstn 10 sorted.

Definition by_job_count (g : Group.t) : option Z := Some (Group.job_count g).

(** [... GROUP BY printer_name ORDER BY job_count DESC LIMIT 10]. *)
Definition top_printers (l : list print_job) (out : list Group.t) : Prop :=
  exists sorted,
    order_by_desc by_job_count (group_by printer_name l) sorted /\
    out = firstn 10 sorted.

(** [SELECT COUNT( * ) as count FROM print_jobs <dateFilter>]. *)
Definition count_jobs (st : store) (q : StatsQuery.t) : Z :=
  sql_count (in_window st q).

(** [SELECT SUM(page_count) as total FROM print_jobs <dateFilter>]. *)
Definition sum_pages (st : store) (q : StatsQuery.t) : option Z :=
  sql_sum (map page_count (in_window st q)).

Record stats : Type := mk_stats {
  totalJobs   : Z;
  totalPages  : Z;
  topUsers    : list Group.t;
  topPrinters : list Group.t
}.

(** The handler: the [data] of its response, from the results of its four
    statements; [total || 0] turns a NULL sum into 0.  None of the four
    statements can fail on the store, so the [catch] branch is not
    modelled. *)
Inductive get_stats (st : store) (q : StatsQuery.t) : stats -> Prop :=
| stats_ok (users printers : list Group.t) :
    top_users (in_window st q) users ->
    top_printers (in_window st q) printers ->
    get_stats st q
      {| totalJobs := count_jobs st q;
         totalPages := js_or (sum_pages st q) 0;
         topUsers := users;
         topPrinters := printers |}.

(** The handler computed with [sort_desc] as the store's order. *)
Definition get_stats_run (st : store) (q : StatsQuery.t) : stats :=
  {| totalJobs := count_jobs st q;
     totalPages := js_or (sum_pages st q) 0;
     topUsers :=
       firstn 10 (sort_desc Group.page_count
                    (group_by user_name (in_window st q)));
     topPrinters :=
       firstn 10 (sort_desc by_job_count
                    (group_by printer_name (in_window st q))) |}.

(** ** The wording of the specification, for comparison *)

(** [sub] occurs in [s]. *)
Fixpoint contains (sub s : string) : bool :=
  String.prefix sub s ||
  match s with
  | EmptyString => false
  | String _ s' => contains sub s'
  end.

(** Case-insensitive substring match. *)
Definition contains_ci (sub s : string) : bool :=
  contains (lower sub) (lower s).

Definition opt_filter {A} (v : option A) (p : A -> bool) : bool :=
  match v with
  | Some x => p x
  | None => true
  end.

Definition at_least (d : Z) (t : option Z) : bool :=
  match t with
  | Some x => d <=? x
  | None => false
  end.

Definition at_most (d : Z) (t : option Z) : bool :=
  match t with
  | Some x => x <=? d
  | None => false
  end.

Definition doc_contains_ci (sub : string) (d : option string) : bool :=
  match d with
  | Some s => contains_ci sub s
  | None => false
  end.

(** The conjunction of the supplied filters as the specification words
    it. *)
Definition spec_matches (q : Query.t) (r : print_job) : bool :=
  opt_filter (Query.user q) (fun u => contains_ci u (user_name r)) &&
  opt_filter (Query.printer q) (fun p => contains_ci p (printer_name r)) &&
  opt_filter (Query.startDate q) (fun d => at_least d (print_time r)) &&
  opt_filter (Query.endDate q) (fun d => at_most d (print_time r)) &&
  opt_filter (Query.search q)
    (fun s => doc_contains_ci s (document_name r)
              || contains_ci s (user_name r)).

(** A filter text without the characters that ILIKE reads as operators. *)
Fixpoint plain_text (s : string) : bool :=
  match s with
  | EmptyString => true
  | String c s' =>
      negb (Ascii.eqb c percent) && negb (Ascii.eqb c underscore) &&
      negb (Ascii.eqb c backslash) && plain_text s'
  end.

Definition plain_filter (v : option string) : bool :=
  match v with
  | Some s => plain_text s
  | None => true
  end.

(** Sum of the page counts, a row without one counting for nothing. *)
Definition pages_sum (l : list print_job) : Z :=
  fold_right (fun r acc => js_or (page_count r) 0 + acc) 0 l.

(** A record passes the date filter of the statistics: with both bounds
    given, its print time lies between them, bounds included; with one
    bound or none, every record passes. *)
Definition in_range (q : StatsQuery.t) (r : print_job) : bool :=
  match StatsQuery.startDate q, StatsQuery.endDate q with
  | Some s, Some e => at_least s (print_time r) && at_most e (print_time r)
  | _, _ => true
  end.

Definition jobs_number (l : list print_job) : Z := Z.of_nat (List.length l).

(** [out] ranks the names of [l] by [score], highest first: at most ten
    entries, no name twice, each entry with the job count and the summed
    page count of its name, scores descending, and no name left out that
    scores higher than a listed one. *)
Definition ranked (by_name : print_job -> string)
  (score : list print_job -> Z) (l : list print_job) (out : list Group.t)
  : Prop :=
  (List.length out <= 10)%nat /\
  NoDup (map Group.name out) /\
  (forall g, In g out ->
     In (Group.name g) (map by_name l) /\
     Group.job_count g = jobs_number (jobs_of by_name l (Group.name g)) /\
     Group.page_count g
       = Some (pages_sum (jobs_of by_name l (Group.name g)))) /\
  StronglySorted
    (fun a b => score (jobs_of by_name l (Group.name b))
                <= score (jobs_of by_name l (Group.name a))) out /\
  (forall n, In n (map by_name l) ->
     In n (map Group.name out) \/
     (List.length out = 10%nat /\
      forall g, In g out ->
        score (jobs_of by_name l n)
        <= score (jobs_of by_name l (Group.name g)))).

(** Names of equal score stand in ascending order of name. *)
Definition ties_by_name (score : Group.t -> option Z) (out : list Group.t)
  : Prop :=
  StronglySorted
    (fun a b => score a = score b ->
                String.leb (Group.name a) (Group.name b) = true) out.

(** Page [k] (from 1) of a request. *)
Definition with_page (q : Query.t) (k : Z) : Query.t :=
  {| Query.page := Some k;
     Query.limit := Query.limit q;
     Query.user := Query.user q;
     Query.printer := Query.printer q;
     Query.startDate := Query.startDate q;
     Query.endDate := Query.endDate q;
     Query.search := Query.search q |}.

(** Number of pages, [ceil(total / limit)], for a positive [limit]. *)
Definition page_total (st : store) (q : Query.t) : nat :=
  Z.to_nat ((count_matching st q + limit_of q - 1) / limit_of q).

(** ** Sample data *)

Definition report (job : option string) (user machine prn : option string)
  (pages : option Z) (time : option Z) : Body.t :=
  {| Body.jobId := job; Body.userName := user; Body.machineName := machine;
     Body.printerName := prn; Body.documentName := None;
     Body.pageCount := pages; Body.printTime := time;
     Body.status := None; Body.fileSize := None |}.

(** A report whose user name is the empty string. *)
Definition report_empty_user : Body.t :=
  report (Some "J1"%string) (Some ""%string) (Some "PC-1"%string)
         (Some "HP"%string) (Some 2) (Some 100).

(** A report with the three names only. *)
Definition report_names_only : Body.t :=
  report None (Some "alice"%string) (Some "PC-1"%string) (Some "HP"%string)
         None None.

Definition report_no_user : Body.t :=
  report (Some "J1"%string) None (Some "PC-1"%string) (Some "HP"%string)
         (Some 2) (Some 100).

Definition report_a : Body.t :=
  report (Some "J7"%string) (Some "alice"%string) (Some "PC-1"%string)
         (Some "P1"%string) (Some 5) (Some 200).

Definition report_b : Body.t :=
  report (Some "J7"%string) (Some "bob"%string) (Some "PC-2"%string)
         (Some "P1"%string) (Some 3) (Some 100).

(** What the store returns for [report_a] sent to the empty store when the
    database clock shows 1001. *)
Definition record_a : print_job :=
  {| id := 1; job_id := Some "J7"%string; user_name := "alice";
     machine_name := "PC-1"; printer_name := "P1"; document_name := None;
     page_count := Some 5; print_time := Some 200; status := None;
     file_size := None; created_at := Some 1001 |}.

Definition store_a : store := {| rows := [record_a]; next_id := 2 |}.

Definition no_filter : Query.t :=
  {| Query.page := None; Query.limit := None; Query.user := None;
     Query.printer := None; Query.startDate := None; Query.endDate := None;
     Query.search := None |}.

Definition with_user (q : Query.t) (u : string) : Query.t :=
  {| Query.page := Query.page q; Query.limit := Query.limit q;
     Query.user := Some u; Query.printer := Query.printer q;
     Query.startDate := Query.startDate q; Query.endDate := Query.endDate q;
     Query.search := Query.search q |}.

Definition with_limit (q : Query.t) (n : Z) : Query.t :=
  {| Query.page := Query.page q; Query.limit := Some n;
     Query.user := Query.user q; Query.printer := Query.printer q;
     Query.startDate := Query.startDate q; Query.endDate := Query.endDate q;
     Query.search := Query.search q |}.

(** A second record with the print time of [record_a]. *)
Definition record_b : print_job :=
  {| id := 2; job_id := Some "J8"%string; user_name := "bob";
     machine_name := "PC-2"; printer_name := "P1"; document_name := None;
     page_count := Some 5; print_time := Some 200; status := None;
     file_size := None; created_at := Some 1002 |}.

Definition store_ab : store := {| rows := [record_a; record_b]; next_id := 3 |}.

(** A record printed later than [record_a]. *)
Definition record_c : print_job :=
  {| id := 2; job_id := Some "J9"%string; user_name := "carol";
     machine_name := "PC-3"; printer_name := "P2"; document_name := None;
     page_count := Some 7; print_time := Some 300; status := None;
     file_size := None; created_at := Some 1003 |}.

Definition store_ac : store := {| rows := [record_a; record_c]; next_id := 3 |}.

(** The pages of [store_ac] read one record at a time. *)
Definition pages_ac (k : nat) : list print_job :=
  match k with
  | O => [record_c]
  | _ => [record_a]
  end.

(** A record of another user on another printer, with the page count of
    [record_a]. *)
Definition record_d : print_job :=
  {| id := 2; job_id := Some "J5"%string; user_name := "bob";
     machine_name := "PC-2"; printer_name := "P2"; document_name := None;
     page_count := Some 5; print_time := Some 250; status := None;
     file_size := None; created_at := Some 1004 |}.

Definition store_ad : store := {| rows := [record_a; record_d]; next_id := 3 |}.

Definition no_window : StatsQuery.t :=
  {| StatsQuery.startDate := None; StatsQuery.endDate := None |}.

Definition group_of (n : string) (jobs pages : Z) : Group.t :=
  {| Group.name := n; Group.job_count := jobs;
     Group.page_count := Some pages |}.

(** The store after [report_a] and then [report_b] were sent to the empty
    store. *)
Definition store_scenario : store :=
  snd (post_print_jobs 2000 2001
         (snd (post_print_jobs 1000 1001 empty_store report_a)) report_b).

(** ** What the INSERT accepts *)

(** A text fits a VARCHAR(n) column. *)
Definition fits (n : nat) (s : string) : bool :=
  (String.length s <=? n)%nat || all_spaces (string_drop n s).


Definition in_range_null (lo hi : Z) (v : option Z) : bool :=
  match v with
  | Some n => (lo <=? n) && (n <=? hi)
  | None => true
  end.



Definition short_null (n : nat) (v : option string) : bool :=
  match v with
  | Some s => (String.length s <=? n)%nat
  | None => true
  end.

(** The row is within the types of its columns. *)
Definition within_columns (r : print_job) : bool :=
  short_null 100 (job_id r) &&
  (String.length (user_name r) <=? 100)%nat &&
  (String.length (machine_name r) <=? 100)%nat &&
  (String.length (printer_name r) <=? 200)%nat &&
  short_null 500 (document_name r) &&
  short_null 50 (status r) &&
  in_range_null INT4_MIN INT4_MAX (page_count r) &&
  in_range_null INT8_MIN INT8_MAX (file_size r) &&
  (1 <=? id r) && (id r <=? INT4_MAX).


(** The filter texts of a request in lower case. *)
Definition lower_filters (q : Query.t) : Query.t :=
  {| Query.page := Query.page q; Query.limit := Query.limit q;
     Query.user := option_map lower (Query.user q);
     Query.printer := option_map lower (Query.printer q);
     Query.startDate := Query.startDate q;
     Query.endDate := Query.endDate q;
     Query.search := option_map lower (Query.search q) |}.

(** A record with its user, printer and document name in lower case. *)
Definition lower_names (r : print_job) : print_job :=
  {| id := id r; job_id := job_id r; user_name := lower (user_name r);
     machine_name := machine_name r;
     printer_name := lower (printer_name r);
     document_name := option_map lower (document_name r);
     page_count := page_count r; print_time := print_time r;
     status := status r; file_size := file_size r;
     created_at := created_at r |}.

Fixpoint no_backslash (s : string) : bool :=
  match s with
  | EmptyString => true
  | String c s' => negb (Ascii.eqb c backslash) && no_backslash s'
  end.

Definition no_backslash_filter (v : option string) : bool :=
  match v with
  | Some s => no_backslash s
  | None => true
  end.

(** Sum of the job counts of a list of groups. *)
Definition jobs_listed (gs : list Group.t) : Z :=
  fold_right (fun g acc => Group.job_count g + acc) 0 gs.

(** Sum of the page counts of a list of groups, a NULL sum counting for
    nothing. *)
Definition pages_listed (gs : list Group.t) : Z :=
  fold_right (fun g acc => js_or (Group.page_count g) 0 + acc) 0 gs.

(** Sum of a weight over a list of records. *)
Definition total_of (weight : print_job -> Z) (l : list print_job) : Z :=
  fold_right (fun r acc => weight r + acc) 0 l.

(** The distinct names of a list of records. *)
Definition names_of (by_name : print_job -> string) (l : list print_job)
  : list string :=
  nodup string_dec (map by_name l).

(** ** The request body as JSON *)

(** The JSON values the agents send. *)
Inductive json : Type :=
| JNull
| JString (s : string)
| JNumber (n : Z).

(** A JSON object as sent: its members in order. *)
Definition json_object : Type := list (string * json).

(** [obj.k] after [JSON.parse]: the value of the last member named [k],
    names compared letter by letter, or [undefined]. *)
Definition member (k : string) (obj : json_object) : option json :=
  fold_left (fun acc m => if String.eqb (fst m) k then Some (snd m) else acc)
            obj None.

(** What reaches the INSERT from a member bound to a text column: NULL for
    [undefined] and [null], the text of a string.  [None] for a number,
    whose conversion to text is outside the model. *)
Definition text_member (v : option json) : option (option string) :=
  match v with
  | None | Some JNull => Some None
  | Some (JString s) => Some (Some s)
  | Some (JNumber _) => None
  end.

(** The same for a member bound to an INTEGER or BIGINT column; the
    reading of a number out of a string is outside the model. *)
Definition number_member (v : option json) : option (option Z) :=
  match v with
  | None | Some JNull => Some None
  | Some (JNumber n) => Some (Some n)
  | Some (JString _) => None
  end.

Section Json.
(** The timestamp the store reads out of a date text. *)
Variable timestamp_of : string -> option Z.

(** The [printTime] member: [undefined], [null] and the empty string are
    falsy; a date text stands for its timestamp. *)
Definition time_member (v : option json) : option (option Z) :=
  match v with
  | None | Some JNull | Some (JString EmptyString) => Some None
  | Some (JString s) => option_map Some (timestamp_of s)
  | Some (JNumber _) => None
  end.

(** [const { jobId, userName, ... } = req.body], inside the model. *)
Definition destructure (obj : json_object) : option Body.t :=
  match text_member (member "jobId" obj),
        text_member (member "userName" obj),
        text_member (member "machineName" obj),
        text_member (member "printerName" obj),
        text_member (member "documentName" obj),
        number_member (member "pageCount" obj),
        time_member (member "printTime" obj),
        text_member (member "status" obj),
        number_member (member "fileSize" obj) with
  | Some j, Some u, Some m, Some p, Some d, Some pc, Some t, Some s, Some fs =>
      Some {| Body.jobId := j; Body.userName := u; Body.machineName := m;
              Body.printerName := p; Body.documentName := d;
              Body.pageCount := pc; Body.printTime := t; Body.status := s;
              Body.fileSize := fs |}
  | _, _, _, _, _, _, _, _, _ => None
  end.

(** The POST handler on a JSON body. *)
Definition post_json (now db_now : Z) (st : store) (obj : json_object)
  : option (post_response * store) :=
  option_map (post_print_jobs now db_now st) (destructure obj).

End Json.

(** ** The Windows agent *)

(** [class PrintJob]: a [string] property may be null; [PrintTime] is kept
    as the text the serializer writes for it. *)
Module PrintJob.
Record t : Type := mk {
  JobId        : option string;
  UserName     : option string;
  MachineName  : option string;
  PrinterName  : option string;
  DocumentName : option string;
  PageCount    : Z;
  PrintTime    : string;
  Status       : option string;
  FileSize     : Z
}.
End PrintJob.

Definition json_of_string (v : option string) : json :=
  match v with
  | Some s => JString s
  | None => JNull
  end.

(** [JsonSerializer.Serialize(printJob)] with the default options: one
    member per property, named as the property is, in the order of the
    class. *)
Definition Serialize (j : PrintJob.t) : json_object :=
  [ ("JobId"%string, json_of_string (PrintJob.JobId j));
    ("UserName"%string, json_of_string (PrintJob.UserName j));
    ("MachineName"%string, json_of_string (PrintJob.MachineName j));
    ("PrinterName"%string, json_of_string (PrintJob.PrinterName j));
    ("DocumentName"%string, json_of_string (PrintJob.DocumentName j));
    ("PageCount"%string, JNumber (PrintJob.PageCount j));
    ("PrintTime"%string, JString (PrintJob.PrintTime j));
    ("Status"%string, json_of_string (PrintJob.Status j));
    ("FileSize"%string, JNumber (PrintJob.FileSize j)) ].

(** ** The dashboard *)

(** The values of the five filter inputs of the page; a date input is
    [None] when empty. *)
Module Filters.
Record t : Type := mk {
  search    : string;
  user      : string;
  printer   : string;
  startDate : option Z;
  endDate   : option Z
}.
End Filters.

(** The query string [loadData] builds: a parameter for every filter with
    a value, and neither [page] nor [limit]. *)
Definition filters_query (f : Filters.t) : Query.t :=
  {| Query.page := None;
     Query.limit := None;
     Query.user := truthy (Some (Filters.user f));
     Query.printer := truthy (Some (Filters.printer f));
     Query.startDate := Filters.startDate f;
     Query.endDate := Filters.endDate f;
     Query.search := truthy (Some (Filters.search f)) |}.

(** The four numbers [displayStats] writes into the cards. *)
Record cards : Type := mk_cards {
  totalJobsCard  : Z;
  totalPagesCard : Z;
  activeUsers    : Z;
  activePrinters : Z
}.

(** [displayStats(stats)]; [n || 0] is [n] for a number. *)
Definition displayStats (out : stats) : cards :=
  {| totalJobsCard := totalJobs out;
     totalPagesCard := totalPages out;
     activeUsers := Z.of_nat (List.length (topUsers out));
     activePrinters := Z.of_nat (List.length (topPrinters out)) |}.

(** What the page shows after [loadData]: the records handed to
    [displayPrintJobs], if the answer was a success, and the cards. *)
Record view : Type := mk_view {
  jobs_shown  : option (list print_job);
  cards_shown : cards
}.

(** [loadData()] against a server that answers both requests: the job
    request carries the filters, the statistics request carries nothing. *)
Inductive loadData (st : store) (f : Filters.t) : view -> Prop :=
| loaded (resp : get_response) (out : stats) :
    get_print_jobs st (filters_query f) resp ->
    get_stats st no_window out ->
    loadData st f
      {| jobs_shown := match resp with
                       | JobsOk data _ => Some data
                       | FetchFailed => None
                       end;
         cards_shown := displayStats out |}.

(** ** The lookup tables and their sample rows *)

(** A row of [users]. *)
Module User.
Record t : Type := mk {
  id         : Z;
  username   : string;
  full_name  : option string;
  department : option string;
  created_at : option Z
}.
End User.

(** A row of [printers]; [cost_per_page], a DECIMAL(10,4), is counted in
    ten-thousandths. *)
Module Printer.
Record t : Type := mk {
  id            : Z;
  name          : string;
  location      : option string;
  cost_per_page : option Z;
  created_at    : option Z
}.
End Printer.

(** A table with a SERIAL id: its rows and the next value of its
    sequence. *)
Record table (A : Type) : Type := mk_table {
  table_rows : list A;
  table_next : Z
}.
Arguments mk_table {A}.
Arguments table_rows {A}.
Arguments table_next {A}.

Section OnConflict.
Context {V A : Type}.
(** The column under the UNIQUE constraint, in a row and in a VALUES
    entry; whether the texts of an entry fit their columns; the row made of
    an entry, its id and CURRENT_TIMESTAMP. *)
Variable key : A -> string.
Variable value_key : V -> string.
Variable value_fits : V -> bool.
Variable make_row : Z -> Z -> V -> A.

(** The entries of a VALUES list one after the other: each takes a value
    of the sequence; an entry whose key is in the table already, or came
    earlier in the list, is passed over. *)
Fixpoint insert_values (db_now : Z) (values : list V) (rs : list A) (next : Z)
  : pg (list A * Z) :=
  match values with
  | [] => pg_ret (rs, next)
  | v :: values' =>
      if INT4_MAX <? next then pg_raise sequence_exhausted
      else if negb (value_fits v) then pg_raise string_data_right_truncation
      else if existsb (fun r => String.eqb (key r) (value_key v)) rs
           then insert_values db_now values' rs (next + 1)
           else insert_values db_now values'
                  (rs ++ [make_row next db_now v]) (next + 1)
  end.

(** [INSERT INTO t (...) VALUES ... ON CONFLICT (key) DO NOTHING]; a
    failed statement inserts nothing. *)
Definition insert_on_conflict_do_nothing (db_now : Z) (values : list V)
  (t : table A) : pg (table A) :=
  pg_bind (insert_values db_now values (table_rows t) (table_next t))
    (fun out => pg_ret {| table_rows := fst out; table_next := snd out |}).

End OnConflict.

(** The VALUES of the two INSERT statements of [init.sql]. *)
Definition sample_users : list (string * string * string) :=
  [ ("john.doe", "John Doe", "IT");
    ("jane.smith", "Jane Smith", "Marketing");
    ("bob.wilson", "Bob Wilson", "Finance") ]%string.

Definition sample_printers : list (string * string * Z) :=
  [ ("HP LaserJet Pro", "Office Floor 1", 500);
    ("Canon ImageRunner", "Office Floor 2", 700) ]%string.

Definition user_row (new_id db_now : Z) (v : string * string * string)
  : User.t :=
  {| User.id := new_id; User.username := fst (fst v);
     User.full_name := Some (snd (fst v)); User.department := Some (snd v);
     User.created_at := Some db_now |}.

Definition printer_row (new_id db_now : Z) (v : string * string * Z)
  : Printer.t :=
  {| Printer.id := new_id; Printer.name := fst (fst v);
     Printer.location := Some (snd (fst v));
     Printer.cost_per_page := Some (snd v);
     Printer.created_at := Some db_now |}.

Definition user_fits (v : string * string * string) : bool :=
  fits 100 (fst (fst v)) && fits 200 (snd (fst v)) && fits 100 (snd v).

Definition printer_fits (v : string * string * Z) : bool :=
  fits 200 (fst (fst v)) && fits 200 (snd (fst v)).

(** The database: the three tables. *)
Record database : Type := mk_database {
  print_jobs : store;
  users      : table User.t;
  printers   : table Printer.t
}.

(** [init.sql] on a database that has its tables ([CREATE TABLE IF NOT
    EXISTS] leaves them as they are): the two INSERT statements. *)
Definition init_sql (db_now : Z) (db : database) : pg database :=
  (us <- insert_on_conflict_do_nothing User.username
           (fun v => fst (fst v)) user_fits user_row
           db_now sample_users (users db) ;;
   ps <- insert_on_conflict_do_nothing Printer.name
           (fun v => fst (fst v)) printer_fits printer_row
           db_now sample_printers (printers db) ;;
   pg_ret {| print_jobs := print_jobs db; users := us; printers := ps |})%pg.

(** The UNIQUE constraints hold. *)
Definition unique_keys (db : database) : Prop :=
  NoDup (map User.username (table_rows (users db))) /\
  NoDup (map Printer.name (table_rows (printers db))).

(** A database with empty tables, and the same after [init.sql] when the
    database clock shows 1000. *)
Definition database_fresh : database :=
  {| print_jobs := empty_store;
     users := mk_table [] 1; printers := mk_table [] 1 |}.

Definition database_seeded : database :=
  {| print_jobs := empty_store;
     users := mk_table (map (fun iv => user_row (fst iv) 1000 (snd iv))
                            (combine [1; 2; 3] sample_users)) 4;
     printers := mk_table (map (fun iv => printer_row (fst iv) 1000 (snd iv))
                               (combine [1; 2] sample_printers)) 3 |}.

(** ** The Ubuntu agent *)

(** The methods of [UbuntuPrintMonitor] that build and send the reports.
    The texts are strings of characters with a code below 256; what the
    agent reads from the system (clock, host name, output of [lpstat] and
    [lpq]) is handed to the functions. *)
Module Ubuntu.

(** The characters [str.split()] and [str.strip()] take for white space. *)
Definition isspace (c : ascii) : bool :=
  let n := nat_of_ascii c in
  (((9 <=? n) && (n <=? 13)) || ((28 <=? n) && (n <=? 32))
   || (n =? 133) || (n =? 160))%nat.

Definition is_empty (s : string) : bool :=
  match s with
  | EmptyString => true
  | String _ _ => false
  end.

(** [s.split()]: the maximal runs of characters that are not white space;
    [word] is the run being read. *)
Fixpoint split_from (word : string) (s : string) : list string :=
  match s with
  | EmptyString => if is_empty word then [] else [word]
  | String c s' =>
      if isspace c
      then if is_empty word then split_from EmptyString s'
           else word :: split_from EmptyString s'
      else split_from (word ++ String c EmptyString) s'
  end.

Definition split (s : string) : list string := split_from EmptyString s.

Definition newline : ascii := ascii_of_nat 10.

(** [s.split('\n')]; [line] is the line being read. *)
Fixpoint split_lines_from (line : string) (s : string) : list string :=
  match s with
  | EmptyString => [line]
  | String c s' =>
      if Ascii.eqb c newline then line :: split_lines_from EmptyString s'
      else split_lines_from (line ++ String c EmptyString) s'
  end.

Definition split_lines (s : string) : list string :=
  split_lines_from EmptyString s.

Fixpoint lstrip (s : string) : string :=
  match s with
  | EmptyString => EmptyString
  | String c s' => if isspace c then lstrip s' else s
  end.

Fixpoint rstrip (s : string) : string :=
  match s with
  | EmptyString => EmptyString
  | String c s' =>
      let t := rstrip s' in
      if is_empty t && isspace c then EmptyString else String c t
  end.

(** [s.strip()]. *)
Definition strip (s : string) : string := rstrip (lstrip s).

Definition dash : ascii := "-".

(** [s.rsplit('-', 1)] when ['-' in s]: the text before the last dash and
    the text after it; [None] when [s] has no dash. *)
Fixpoint rsplit_dash (s : string) : option (string * string) :=
  match s with
  | EmptyString => None
  | String c s' =>
      match rsplit_dash s' with
      | Some (before, after) => Some (String c before, after)
      | None => if Ascii.eqb c dash then Some (EmptyString, s') else None
      end
  end.

(** [s.replace('_', ' ')]. *)
Fixpoint spaces_for_underscores (s : string) : string :=
  match s with
  | EmptyString => EmptyString
  | String c s' =>
      String (if Ascii.eqb c underscore then " "%char else c)
             (spaces_for_underscores s')
  end.

Definition is_decimal (c : ascii) : bool :=
  let n := nat_of_ascii c in ((48 <=? n) && (n <=? 57))%nat.

(** The characters [str.isdigit()] accepts: the decimal digits and the
    superscripts 1, 2 and 3. *)
Definition is_digit_char (c : ascii) : bool :=
  let n := nat_of_ascii c in
  is_decimal c || ((n =? 178) || (n =? 179) || (n =? 185))%nat.

Fixpoint all_digit_chars (s : string) : bool :=
  match s with
  | EmptyString => true
  | String c s' => is_digit_char c && all_digit_chars s'
  end.

(** [s.isdigit()]. *)
Definition isdigit (s : string) : bool :=
  negb (is_empty s) && all_digit_chars s.

Fixpoint leading_decimals (s : string) : string :=
  match s with
  | EmptyString => EmptyString
  | String c s' =>
      if is_decimal c then String c (leading_decimals s') else EmptyString
  end.

(** [re.search(r'\d+', s)]: the first run of decimal digits, if any. *)
Fixpoint search_decimals (s : string) : option string :=
  match s with
  | EmptyString => None
  | String c s' =>
      if is_decimal c then Some (String c (leading_decimals s'))
      else search_decimals s'
  end.

Fixpoint decimal_value (acc : Z) (s : string) : Z :=
  match s with
  | EmptyString => acc
  | String c s' =>
      decimal_value (10 * acc + (Z.of_nat (nat_of_ascii c) - 48)) s'
  end.

(** [int(s)] for a text of decimal digits; [max_str_digits] is the limit
    of the interpreter on the length of such a text, if it has one, beyond
    which [int] raises ValueError. *)
Definition int_of (max_str_digits : option nat) (s : string) : option Z :=
  match max_str_digits with
  | Some limit =>
      if (limit <? String.length s)%nat then None
      else Some (decimal_value 0 s)
  | None => Some (decimal_value 0 s)
  end.

(** The [details] dictionary of [get_job_details]. *)
Record details : Type := mk_details {
  document_name : string;
  page_count    : Z;
  file_size     : Z
}.

Definition default_details (job_id : string) : details :=
  {| document_name := "Document-" ++ job_id;
     page_count := 1;
     file_size := 1024 |}.

(** The body of [for part in parts]: a part that has "bytes" in it or is
    all digits sets the size to the number it holds and the page count to
    the pages estimated from it; the [try] passes over a part that has no
    number or one that [int] refuses. *)
Definition read_size (max_str_digits : option nat) (d : details)
  (part : string) : details :=
  if contains "bytes" (lower part) || isdigit part then
    match search_decimals part with
    | Some digits =>
        match int_of max_str_digits digits with
        | Some size =>
            {| document_name := document_name d;
               page_count := Z.max 1 (size / 50000);
               file_size := size |}
        | None => d
        end
    | None => d
    end
  else d.

(** The loop over the lines of the [lpq] output: the first line that has
    [job_id] in it and more than three parts gives the details and ends
    the loop. *)
Fixpoint scan_lines (max_str_digits : option nat) (job_id : string)
  (lines : list string) (d : details) : details :=
  match lines with
  | [] => d
  | line :: lines' =>
      if contains job_id line then
        let parts := split line in
        if (3 <? List.length parts)%nat then
          let last_part := last parts EmptyString in
          fold_left (read_size max_str_digits) parts
            {| document_name :=
                 if String.eqb last_part job_id
                 then ("Document-" ++ job_id)%string else last_part;
               page_count := page_count d;
               file_size := file_size d |}
        else scan_lines max_str_digits job_id lines' d
      else scan_lines max_str_digits job_id lines' d
  end.

(** [get_job_details(job_id, printer_name)]; [lpq_stdout] is the output
    of [lpq -P printer_name], or [None] when running it raised. *)
Definition get_job_details (max_str_digits : option nat)
  (lpq_stdout : option string) (job_id : string) : details :=
  match lpq_stdout with
  | Some out =>
      scan_lines max_str_digits job_id (split_lines out)
                 (default_details job_id)
  | None => default_details job_id
  end.

(** What [parse_job_line] reads from the system for one line. *)
Record moment : Type := mk_moment {
  max_str_digits : option nat;
  fallback_clock : string;           (* str(int(time.time())), first call *)
  id_clock       : string;           (* str(int(time.time())), second call *)
  now_iso        : string;           (* datetime.now().isoformat() *)
  nodename       : string;           (* os.uname().nodename *)
  lpq            : string -> option string
}.

(** [parse_job_line(line)]: the report as the dictionary that is sent, or
    [None]. *)
Definition parse_job_line (m : moment) (line : string)
  : option json_object :=
  match split line with
  | printer_job :: user_name :: _ :: _ =>
      let '(printer_name, job_id) :=
        match rsplit_dash printer_job with
        | Some (before, after) => (spaces_for_underscores before, after)
        | None => (spaces_for_underscores printer_job, fallback_clock m)
        end in
      let job_details :=
        get_job_details (max_str_digits m) (lpq m printer_name) job_id in
      Some [ ("jobId", JString ("cups-" ++ job_id ++ "-" ++ id_clock m));
             ("userName", JString user_name);
             ("machineName", JString (nodename m));
             ("printerName", JString printer_name);
             ("documentName", JString (document_name job_details));
             ("pageCount", JNumber (page_count job_details));
             ("printTime", JString (now_iso m));
             ("status", JString "completed");
             ("fileSize", JNumber (file_size job_details)) ]%string
  | _ => None
  end.

(** The result of running [lpstat -W completed -o]. *)
Inductive lpstat_result : Type :=
| lpstat_done (returncode : Z) (stdout : string)
| lpstat_raised.

Definition is_processed (processed_jobs : list string) (line : string)
  : bool :=
  existsb (String.eqb line) processed_jobs.

(** The loop of [get_print_jobs] over the lines; [world k] is what the
    agent reads from the system while it handles the line of index [k]. *)
Fixpoint read_lines (world : nat -> moment) (k : nat) (lines : list string)
  (processed_jobs : list string) : list json_object * list string :=
  match lines with
  | [] => ([], processed_jobs)
  | raw :: lines' =>
      let line := strip raw in
      if negb (is_empty line) && negb (is_processed processed_jobs line) then
        match parse_job_line (world k) line with
        | Some job =>
            let '(jobs, processed') :=
              read_lines world (S k) lines' (line :: processed_jobs) in
            (job :: jobs, processed')
        | None => read_lines world (S k) lines' processed_jobs
        end
      else read_lines world (S k) lines' processed_jobs
  end.

(** [get_print_jobs()]: the new reports, and [processed_jobs]
    afterwards. *)
Definition get_print_jobs (world : nat -> moment) (result : lpstat_result)
  (processed_jobs : list string) : list json_object * list string :=
  match result with
  | lpstat_done returncode stdout =>
      if returncode =? 0
      then read_lines world 0 (split_lines (strip stdout)) processed_jobs
      else ([], processed_jobs)
  | lpstat_raised => ([], processed_jobs)
  end.

(** One request of [send_to_api]: it reaches the server, at the given
    server and database times, or it does not. *)
Inductive delivery : Type :=
| delivered (now db_now : Z)
| not_delivered.

(** [for job in jobs: self.send_to_api(job)] against the server;
    [net k] is the fate of the request of index [k].  A body outside the
    model of the POST handler leaves [None]. *)
Fixpoint send_all (timestamp_of : string -> option Z) (net : nat -> delivery)
  (k : nat) (jobs : list json_object) (st : store) : option store :=
  match jobs with
  | [] => Some st
  | job :: jobs' =>
      match net k with
      | delivered now db_now =>
          match post_json timestamp_of now db_now st job with
          | Some (_, st') => send_all timestamp_of net (S k) jobs' st'
          | None => None
          end
      | not_delivered => send_all timestamp_of net (S k) jobs' st
      end
  end.

(** One round of the loop of [monitor]: poll, send, and clear the cache
    when an hour has gone by and it holds more than 1000 lines. *)
Definition monitor_round (timestamp_of : string -> option Z)
  (world : nat -> moment) (net : nat -> delivery) (result : lpstat_result)
  (hour_passed : bool) (processed_jobs : list string) (st : store)
  : option (list string * store) :=
  let '(jobs, processed') := get_print_jobs world result processed_jobs in
  match send_all timestamp_of net 0 jobs st with
  | Some st' =>
      Some (if hour_passed && (1000 <? List.length processed')%nat
            then [] else processed',
            st')
  | None => None
  end.

(** The page count is the one estimated from the file size. *)
Definition estimated (d : details) : Prop :=
  0 <= file_size d /\ page_count d = Z.max 1 (file_size d / 50000).

(** A line of the [lpstat] output that a poll passes over: empty once
    stripped, in the cache, or of fewer than three parts. *)
Definition passed_over (processed_jobs : list string) (raw : string) : Prop :=
  is_empty (strip raw) = true \/
  is_processed processed_jobs (strip raw) = true \/
  (List.length (split (strip raw)) < 3)%nat.

End Ubuntu.

(** A moment of the agent: the clock shows 1718180000, the host is ws-7,
    and [lpq] lists job 42 with a document of 120000 bytes. *)
Definition moment_ws7 : Ubuntu.moment :=
  {| Ubuntu.max_str_digits := Some 4300%nat;
     Ubuntu.fallback_clock := "1718180000";
     Ubuntu.id_clock := "1718180000";
     Ubuntu.now_iso := "2024-06-12T10:13:20";
     Ubuntu.nodename := "ws-7";
     Ubuntu.lpq := fun _ =>
       Some "1st alice 42 report.pdf 120000 bytes"%string |}.

Definition line_42 : string := "HP_LaserJet-42 alice 120000 Wed".

(** The report [parse_job_line] makes of [line_42] at [moment_ws7]. *)
Definition report_42 : json_object :=
  [ ("jobId", JString "cups-42-1718180000");
    ("userName", JString "alice");
    ("machineName", JString "ws-7");
    ("printerName", JString "HP LaserJet");
    ("documentName", JString "bytes");
    ("pageCount", JNumber 2);
    ("printTime", JString "2024-06-12T10:13:20");
    ("status", JString "completed");
    ("fileSize", JNumber 120000) ]%string.

(** The output of [lpstat] with [line_42] and a line that is no job. *)
Definition lpstat_42 : Ubuntu.lpstat_result :=
  Ubuntu.lpstat_done 0
    (line_42 ++ String Ubuntu.newline "no jobs" ++ String Ubuntu.newline "").

(** The store after a first round of the monitor on [lpstat_42] whose
    request was delivered. *)
Definition store_42 : store :=
  match Ubuntu.monitor_round (fun _ => Some 1718180000)
          (fun _ => moment_ws7) (fun _ => Ubuntu.delivered 1000 1001)
          lpstat_42 false [] empty_store with
  | Some (_, st) => st
  | None => empty_store
  end.

(** The filter inputs of the page with "ali" typed into the user filter,
    and what the page shows for them on [store_scenario]. *)
Definition filters_ali : Filters.t :=
  {| Filters.search := ""; Filters.user := "ali"; Filters.printer := "";
     Filters.startDate := None; Filters.endDate := None |}.

Definition view_ali : view :=
  {| jobs_shown :=
       match get_print_jobs_run store_scenario (filters_query filters_ali) with
       | JobsOk data _ => Some data
       | FetchFailed => None
       end;
     cards_shown := displayStats (get_stats_run store_scenario no_window) |}.

(** * Properties *)

(** ** Ingestion *)

Lemma insert_failed_rows db_now st p e st' :
  insert_print_job db_now st p = (inl e, st') -> rows st' = rows st.
Proof.
  unfold insert_print_job.
  destruct (bind_int INT4_MIN INT4_MAX (p_page_count p)).
  { intros H; inversion H; reflexivity. }
  destruct (bind_int INT8_MIN INT8_MAX (p_file_size p)).
  { intros H; inversion H; reflexivity. }
  destruct (INT4_MAX <? next_id st).
  { intros H; inversion H; reflexivity. }
  match goal with |- context [match ?m with inl _ => _ | inr _ => _ end] =>
    destruct m end; intros H; inversion H; reflexivity.
Qed.

Lemma insert_failed_next_id db_now st p e st' :
  insert_print_job db_now st p = (inl e, st') -> next_id st <= next_id st'.
Proof.
  unfold insert_print_job.
  destruct (bind_int INT4_MIN INT4_MAX (p_page_count p)).
  { intros H; inversion H; lia. }
  destruct (bind_int INT8_MIN INT8_MAX (p_file_size p)).
  { intros H; inversion H; lia. }
  destruct (INT4_MAX <? next_id st).
  { intros H; inversion H; lia. }
  match goal with |- context [match ?m with inl _ => _ | inr _ => _ end] =>
    destruct m end; intros H; inversion H; cbn; lia.
Qed.

Lemma bind_int_inv lo hi v w :
  bind_int lo hi v = inr w -> w = v.
Proof.
  destruct v as [n|]; simpl.
  - destruct ((lo <=? n) && (n <=? hi)); intros H; inversion H; reflexivity.
  - intros H; inversion H; reflexivity.
Qed.

(** What a successful INSERT did: every check passed, the row carries the
    next sequence value, and it is the one row appended. *)
Lemma insert_ok_inv db_now st p r st' :
  insert_print_job db_now st p = (inr r, st') ->
  next_id st <= INT4_MAX /\
  bind_int INT4_MIN INT4_MAX (p_page_count p) = inr (page_count r) /\
  bind_int INT8_MIN INT8_MAX (p_file_size p) = inr (file_size r) /\
  varchar_null 100 (p_job_id p) = inr (job_id r) /\
  varchar_null 100 (p_user_name p) = inr (Some (user_name r)) /\
  varchar_null 100 (p_machine_name p) = inr (Some (machine_name r)) /\
  varchar_null 200 (p_printer_name p) = inr (Some (printer_name r)) /\
  varchar_null 500 (p_document_name p) = inr (document_name r) /\
  varchar_null 50 (p_status p) = inr (status r) /\
  id r = next_id st /\
  print_time r = p_print_time p /\
  created_at r = Some db_now /\
  st' = {| rows := rows st ++ [r]; next_id := next_id st + 1 |}.
Proof.
  unfold insert_print_job.
  destruct (bind_int INT4_MIN INT4_MAX (p_page_count p)) as [|pc];
    [discriminate|].
  destruct (bind_int INT8_MIN INT8_MAX (p_file_size p)) as [|fs];
    [discriminate|].
  destruct (INT4_MAX <? next_id st) eqn:Hseq; [discriminate|].
  apply Z.ltb_ge in Hseq.
  destruct (varchar_null 100 (p_job_id p)) as [|j]; [discriminate|].
  destruct (varchar_null 100 (p_user_name p)) as [|[u|]]; try discriminate.
  2:{ cbn.
      destruct (varchar_null 100 (p_machine_name p)); cbn; try discriminate.
      destruct (varchar_null 200 (p_printer_name p)); cbn; try discriminate.
      destruct (varchar_null 500 (p_document_name p)); cbn; try discriminate.
      destruct (varchar_null 50 (p_status p)); cbn; discriminate. }
  destruct (varchar_null 100 (p_machine_name p)) as [|[m|]]; try discriminate.
  2:{ cbn.
      destruct (varchar_null 200 (p_printer_name p)); cbn; try discriminate.
      destruct (varchar_null 500 (p_document_name p)); cbn; try discriminate.
      destruct (varchar_null 50 (p_status p)); cbn; discriminate. }
  destruct (varchar_null 200 (p_printer_name p)) as [|[pr|]]; try discriminate.
  2:{ cbn.
      destruct (varchar_null 500 (p_document_name p)); cbn; try discriminate.
      destruct (varchar_null 50 (p_status p)); cbn; discriminate. }
  destruct (varchar_null 500 (p_document_name p)) as [|d]; [discriminate|].
  destruct (varchar_null 50 (p_status p)) as [|s]; [discriminate|].
  cbn. intros H. inversion H; subst; cbn.
  repeat split; auto.
Qed.

(** The converse: when every check passes, the INSERT succeeds. *)
Lemma insert_ok_intro db_now st p pc fs j u m pr d s :
  next_id st <= INT4_MAX ->
  bind_int INT4_MIN INT4_MAX (p_page_count p) = inr pc ->
  bind_int INT8_MIN INT8_MAX (p_file_size p) = inr fs ->
  varchar_null 100 (p_job_id p) = inr j ->
  varchar_null 100 (p_user_name p) = inr (Some u) ->
  varchar_null 100 (p_machine_name p) = inr (Some m) ->
  varchar_null 200 (p_printer_name p) = inr (Some pr) ->
  varchar_null 500 (p_document_name p) = inr d ->
  varchar_null 50 (p_status p) = inr s ->
  let r := {| id := next_id st; job_id := j; user_name := u;
              machine_name := m; printer_name := pr; document_name := d;
              page_count := pc; print_time := p_print_time p; status := s;
              file_size := fs; created_at := Some db_now |} in
  insert_print_job db_now st p =
    (inr r, {| rows := rows st ++ [r]; next_id := next_id st + 1 |}).
Proof.
  intros Hseq Hpc Hfs Hj Hu Hm Hpr Hd Hs r.
  unfold insert_print_job.
  rewrite Hpc, Hfs.
  apply Z.ltb_ge in Hseq. rewrite Hseq.
  rewrite Hj, Hu, Hm, Hpr, Hd, Hs. reflexivity.
Qed.

Lemma post_created_inv now db_now st b r st' :
  post_print_jobs now db_now st b = (Created r, st') ->
  insert_print_job db_now st (post_params now b) = (inr r, st').
Proof.
  unfold post_print_jobs.
  destruct (insert_print_job db_now st (post_params now b)) as [[e|r0] st0];
    intros H; inversion H; reflexivity.
Qed.

(** A stored record carries the page count, file size and status it was
    sent with, and the server's time where the report had no print time. *)
Lemma post_stored_fields now db_now st b r st' :
  post_print_jobs now db_now st b = (Created r, st') ->
  page_count r = Body.pageCount b /\
  file_size r = Body.fileSize b /\
  (Body.status b = None -> status r = None) /\
  (Body.printTime b = None -> print_time r = Some now).
Proof.
  intros H. apply post_created_inv, insert_ok_inv in H.
  destruct H as (_ & Hpc & Hfs & _ & _ & _ & _ & _ & Hs & _ & Ht & _).
  cbn in *.
  repeat split.
  - apply bind_int_inv in Hpc. exact Hpc.
  - apply bind_int_inv in Hfs. exact Hfs.
  - intros E. rewrite E in Hs. cbn in Hs. inversion Hs; reflexivity.
  - intros E. rewrite Ht, E. reflexivity.
Qed.

(** Every record of a store built by ingestion has its own id, below the
    next value of the sequence, a print time and a creation time. *)
Lemma reachable_invariant st :
  reachable st ->
  NoDup (map id (rows st)) /\
  Forall (fun r => id r < next_id st) (rows st) /\
  Forall (fun r => print_time r <> None /\ created_at r <> None) (rows st).
Proof.
  induction 1 as [|now db_now st b resp st' Hr (Hnd & Hlt & Hpt) Hpost].
  - repeat split; constructor.
  - unfold post_print_jobs in Hpost.
    destruct (insert_print_job db_now st (post_params now b))
      as [[e|r] st0] eqn:E; inversion Hpost; subst; clear Hpost.
    + pose proof (insert_failed_rows _ _ _ _ _ E) as Hrows.
      pose proof (insert_failed_next_id _ _ _ _ _ E) as Hnext.
      rewrite Hrows. repeat split; auto.
      eapply Forall_impl; [|exact Hlt]. intros r Hrlt. simpl in Hrlt. lia.
    + apply insert_ok_inv in E.
      destruct E as (_ & _ & _ & _ & _ & _ & _ & _ & _ & Hid & Ht & Hc & ->).
      cbn [rows next_id]. repeat split.
      * rewrite map_app. simpl.
        apply Permutation_NoDup with (l := id r :: map id (rows st)).
        { apply Permutation_cons_append. }
        constructor; [|exact Hnd].
        intros Hin. apply in_map_iff in Hin. destruct Hin as (r' & E' & Hr').
        rewrite Forall_forall in Hlt. specialize (Hlt r' Hr'). lia.
      * apply Forall_app. split.
        -- eapply Forall_impl; [|exact Hlt]. intros r' Hr'. simpl in Hr'. lia.
        -- constructor; [lia | constructor].
      * apply Forall_app. split; [exact Hpt|].
        constructor; [|constructor]. rewrite Ht, Hc. cbn.
        split; discriminate.
Qed.

(** The sample stores are stores that ingestion builds. *)
Lemma sample_stores_reachable :
  reachable store_a /\ reachable store_ab /\ reachable store_ac /\
  reachable store_ad /\ reachable store_scenario.
Proof.
  assert (Ha : reachable store_a).
  { apply (reachable_post 1000 1001 empty_store report_a (Created record_a));
      [constructor | reflexivity]. }
  repeat split.
  - exact Ha.
  - apply (reachable_post 1000 1002 store_a
             (report (Some "J8"%string) (Some "bob"%string)
                     (Some "PC-2"%string) (Some "P1"%string)
                     (Some 5) (Some 200))
             (Created record_b)); [exact Ha | reflexivity].
  - apply (reachable_post 1000 1003 store_a
             (report (Some "J9"%string) (Some "carol"%string)
                     (Some "PC-3"%string) (Some "P2"%string)
                     (Some 7) (Some 300))
             (Created record_c)); [exact Ha | reflexivity].
  - apply (reachable_post 1000 1004 store_a
             (report (Some "J5"%string) (Some "bob"%string)
                     (Some "PC-2"%string) (Some "P2"%string)
                     (Some 5) (Some 250))
             (Created record_d)); [exact Ha | reflexivity].
  - eapply (reachable_post 2000 2001 _ report_b); [exact Ha | reflexivity].
Qed.

(** C1, as stated, fails: a report whose user name is the empty string is
    answered with 201 and its record is added to the store. *)
Lemma ingest_empty_user_name_is_stored :
  Body.userName report_empty_user = Some ""%string /\
  exists r st',
    post_print_jobs 1000 1001 empty_store report_empty_user
      = (Created r, st') /\
    rows st' = [r] /\ user_name r = ""%string /\
    rows st' <> rows empty_store.
Proof.
  split; [reflexivity|].
  eexists; eexists. split; [reflexivity|].
  cbn. repeat split. discriminate.
Qed.

(** C1, amended: when userName, machineName or printerName is absent, the
    request gets the handler's failure response (500, success false) and the
    rows of the store are as before. *)
Theorem ingest_missing_name_fails now db_now st b :
  Body.userName b = None \/ Body.machineName b = None \/
  Body.printerName b = None ->
  exists st',
    post_print_jobs now db_now st b = (SaveFailed, st') /\
    post_http_status SaveFailed = 500 /\
    post_success SaveFailed = false /\
    rows st' = rows st.
Proof.
  intros Hmiss.
  unfold post_print_jobs.
  destruct (insert_print_job db_now st (post_params now b))
    as [[e|r] st'] eqn:E.
  - exists st'. repeat split. eapply insert_failed_rows; eassumption.
  - exfalso. apply insert_ok_inv in E.
    destruct E as (_ & _ & _ & _ & Hu & Hm & Hp & _). cbn in Hu, Hm, Hp.
    destruct Hmiss as [H|[H|H]]; rewrite H in *; discriminate.
Qed.

Lemma ingest_missing_name_fails_witness :
  exists st',
    post_print_jobs 1000 1001 empty_store report_no_user = (SaveFailed, st') /\
    post_http_status SaveFailed = 500 /\
    post_success SaveFailed = false /\
    rows st' = rows empty_store.
Proof.
  apply (ingest_missing_name_fails 1000 1001 empty_store report_no_user).
  left. reflexivity.
Defined.

(** C2, on the code: a report with the three names only is stored with a
    NULL page count, a NULL file size and a NULL status, not with 0, 0 and
    "completed"; its print time is the server's time. *)
Theorem ingest_absent_fields_stored_null :
  exists r st',
    post_print_jobs 1000 1001 empty_store report_names_only
      = (Created r, st') /\
    rows st' = [r] /\
    page_count r = None /\ file_size r = None /\ status r = None /\
    print_time r = Some 1000.
Proof.
  eexists; eexists. split; [reflexivity|].
  cbn. repeat split.
Qed.

(** C9: a report that is acceptable on its own is accepted after another
    report with the same external job id, whatever the two print times,
    as long as the id sequence has a value left; the two records are stored
    one after the other under different ids and the same job id. *)
Theorem ingest_duplicate_job_id_accepted
  now1 db1 now2 db2 st b1 b2 r1 st1 :
  Body.jobId b1 = Body.jobId b2 ->
  post_print_jobs now1 db1 st b1 = (Created r1, st1) ->
  (exists r0 st0,
     post_print_jobs now2 db2 empty_store b2 = (Created r0, st0)) ->
  next_id st1 <= INT4_MAX ->
  exists r2 st2,
    post_print_jobs now2 db2 st1 b2 = (Created r2, st2) /\
    id r1 <> id r2 /\
    job_id r1 = job_id r2 /\
    rows st2 = rows st ++ [r1; r2].
Proof.
  intros Hjob H1 (r0 & st0 & H0) Hseq.
  apply post_created_inv, insert_ok_inv in H1.
  apply post_created_inv, insert_ok_inv in H0.
  destruct H1 as (_ & _ & _ & Hj1 & _ & _ & _ & _ & _ & Hid1 & _ & _ & Hst1).
  destruct H0 as (_ & Hpc & Hfs & Hj & Hu & Hm & Hp & Hd & Hs & _).
  pose proof (insert_ok_intro db2 st1 (post_params now2 b2) _ _ _ _ _ _ _ _
                Hseq Hpc Hfs Hj Hu Hm Hp Hd Hs) as H2.
  cbv zeta in H2.
  eexists; eexists. split.
  - unfold post_print_jobs. rewrite H2. reflexivity.
  - cbn. subst st1. cbn. repeat split.
    + rewrite Hid1. lia.
    + cbn in Hj1, Hj. rewrite Hjob in Hj1. rewrite Hj1 in Hj.
      inversion Hj; reflexivity.
    + rewrite <- app_assoc. reflexivity.
Qed.

Lemma ingest_duplicate_job_id_accepted_witness :
  exists r2 st2,
    post_print_jobs 2000 2001 store_a report_b = (Created r2, st2) /\
    id record_a <> id r2 /\
    job_id record_a = job_id r2 /\
    rows st2 = rows empty_store ++ [record_a; r2].
Proof.
  apply (ingest_duplicate_job_id_accepted 1000 1001 2000 2001
           empty_store report_a report_b record_a store_a).
  - reflexivity.
  - reflexivity.
  - eexists; eexists; reflexivity.
  - cbn. unfold INT4_MAX. lia.
Defined.

(** ** ILIKE on the patterns of the handlers *)

Lemma lower_ascii_percent c :
  Ascii.eqb (lower_ascii c) percent = Ascii.eqb c percent.
Proof. destruct c as [[] [] [] [] [] [] [] []]; reflexivity. Qed.

Lemma lower_ascii_underscore c :
  Ascii.eqb (lower_ascii c) underscore = Ascii.eqb c underscore.
Proof. destruct c as [[] [] [] [] [] [] [] []]; reflexivity. Qed.

Lemma lower_ascii_backslash c :
  Ascii.eqb (lower_ascii c) backslash = Ascii.eqb c backslash.
Proof. destruct c as [[] [] [] [] [] [] [] []]; reflexivity. Qed.

Lemma lower_app x y : lower (x ++ y) = (lower x ++ lower y)%string.
Proof. induction x as [|c x IH]; simpl; [reflexivity | now rewrite IH]. Qed.

Lemma lower_contains_pattern x :
  lower (contains_pattern x) = contains_pattern (lower x).
Proof. unfold contains_pattern. simpl. now rewrite lower_app. Qed.

Lemma plain_text_lower x : plain_text (lower x) = plain_text x.
Proof.
  induction x as [|c x IH]; simpl; [reflexivity|].
  now rewrite lower_ascii_percent, lower_ascii_underscore,
    lower_ascii_backslash, IH.
Qed.

Lemma like_tokens_plain x rest :
  plain_text x = true ->
  like_tokens (x ++ rest) = literals x ++ like_tokens rest.
Proof.
  induction x as [|c x IH]; simpl; [reflexivity|].
  intros H. repeat (apply andb_prop in H; destruct H as [H ?]).
  apply negb_true_iff in H. apply negb_true_iff in H1.
  apply negb_true_iff in H2.
  rewrite H2, H, H1. now rewrite IH.
Qed.

Lemma like_tokens_plain_pattern x :
  plain_text x = true ->
  like_tokens (contains_pattern x) = any_string :: literals x ++ [any_string].
Proof.
  intros H. unfold contains_pattern.
  change (like_tokens (String percent (x ++ String percent "")))
    with (any_string :: like_tokens (x ++ String percent "")).
  now rewrite like_tokens_plain.
Qed.

(** Whatever the filter text, its pattern has no trailing escape. *)
Lemma like_tokens_no_dangling n : forall x,
  (String.length x <= n)%nat ->
  ~ In dangling_escape (like_tokens (x ++ String percent "")).
Proof.
  induction n as [|n IH]; intros x Hlen.
  - destruct x; simpl in Hlen; [|lia]. simpl. intros [H|[]]. discriminate.
  - destruct x as [|c x]; [simpl; intros [H|[]]; discriminate|].
    simpl in Hlen. simpl.
    destruct (Ascii.eqb c backslash).
    + destruct x as [|c' x]; simpl.
      * intros [H|[]]. discriminate.
      * intros [H|H]; [discriminate|]. simpl in Hlen.
        apply (IH x); [lia | exact H].
    + assert (Hx : ~ In dangling_escape (like_tokens (x ++ String percent "")))
        by (apply IH; lia).
      destruct (Ascii.eqb c percent); [|destruct (Ascii.eqb c underscore)];
        intros [H|H]; try discriminate; contradiction.
Qed.

Lemma like_tokens_contains_pattern x :
  ~ In dangling_escape (like_tokens (lower (contains_pattern x))).
Proof.
  rewrite lower_contains_pattern. unfold contains_pattern.
  change (like_tokens (String percent (lower x ++ String percent "")))
    with (any_string :: like_tokens (lower x ++ String percent "")).
  intros [H|H]; [discriminate|].
  now apply (like_tokens_no_dangling (String.length (lower x)) (lower x)).
Qed.

Lemma like_match_any_string ts s :
  like_match (any_string :: ts) s =
  like_match ts s ||
  match s with
  | EmptyString => false
  | String _ s' => like_match (any_string :: ts) s'
  end.
Proof. destruct s; reflexivity. Qed.

Lemma like_match_tail_any s : like_match [any_string] s = true.
Proof.
  induction s as [|c s IH]; [reflexivity|].
  rewrite like_match_any_string, IH. apply orb_true_r.
Qed.

Lemma like_match_prefix x : forall s,
  like_match (literals x ++ [any_string]) s = String.prefix x s.
Proof.
  induction x as [|c x IH]; intros s.
  - simpl literals. simpl app. rewrite like_match_tail_any.
    destruct s; reflexivity.
  - destruct s as [|c' s]; [reflexivity|].
    simpl. rewrite IH.
    destruct (ascii_dec c c') as [E|E].
    + subst. now rewrite Ascii.eqb_refl.
    + apply Ascii.eqb_neq in E. now rewrite E.
Qed.

Lemma like_match_contains x : forall s,
  like_match (any_string :: literals x ++ [any_string]) s = contains x s.
Proof.
  induction s as [|c s IH]; rewrite like_match_any_string, like_match_prefix.
  - reflexivity.
  - rewrite IH. reflexivity.
Qed.

(** On a filter text without [%], [_] and [\], [ILIKE '%text%'] is the
    case-insensitive substring test. *)
Lemma ilike_contains_ci x s :
  plain_text x = true ->
  ilike s (contains_pattern x) = contains_ci x s.
Proof.
  intros H. unfold ilike, contains_ci.
  rewrite lower_contains_pattern, like_tokens_plain_pattern
    by now rewrite plain_text_lower.
  apply like_match_contains.
Qed.

Lemma prefix_app x : forall s,
  String.prefix x s = true <-> exists b, s = (x ++ b)%string.
Proof.
  induction x as [|c x IH]; intros s.
  - split; [exists s; reflexivity | destruct s; reflexivity].
  - destruct s as [|c' s]; simpl.
    + split; [discriminate | intros [b H]; discriminate].
    + destruct (ascii_dec c c') as [E|E].
      * subst. rewrite IH. split; intros [b H]; exists b.
        -- now rewrite H.
        -- now inversion H.
      * split; [discriminate | intros [b H]; congruence].
Qed.

Lemma contains_unfold x s :
  contains x s =
  String.prefix x s ||
  match s with
  | EmptyString => false
  | String _ s' => contains x s'
  end.
Proof. destruct s; reflexivity. Qed.

(** [contains] is the substring relation. *)
Lemma contains_spec x : forall s,
  contains x s = true <-> exists a b, s = (a ++ x ++ b)%string.
Proof.
  induction s as [|c s IH]; rewrite contains_unfold, orb_true_iff, prefix_app.
  - split.
    + intros [[b H]|H]; [|discriminate]. exists ""%string, b. exact H.
    + intros (a & b & H). left. destruct a; [exists b; exact H|discriminate].
  - rewrite IH. split.
    + intros [[b H]|(a & b & H)].
      * exists ""%string, b. exact H.
      * exists (String c a), b. simpl. now rewrite H.
    + intros (a & b & H). destruct a as [|c' a].
      * left. exists b. exact H.
      * right. exists a, b. simpl in H. now inversion H.
Qed.

(** ** Filters of the query *)

Lemma is_true_and a b : is_true (sql_and a b) = is_true a && is_true b.
Proof. destruct a as [[]|], b as [[]|]; reflexivity. Qed.

Lemma is_true_or a b : is_true (sql_or a b) = is_true a || is_true b.
Proof. destruct a as [[]|], b as [[]|]; reflexivity. Qed.

Lemma where_clause_from cs r : forall acc,
  is_true (fold_left (fun a (c : clause) => sql_and a (c r)) cs acc) =
  is_true acc && forallb (fun c : clause => is_true (c r)) cs.
Proof.
  induction cs as [|c cs IH]; intros acc; simpl.
  - now rewrite andb_true_r.
  - now rewrite IH, is_true_and, andb_assoc.
Qed.

Lemma where_clause_forallb cs r :
  is_true (where_clause cs r) = forallb (fun c : clause => is_true (c r)) cs.
Proof. unfold where_clause. now rewrite where_clause_from. Qed.

Lemma is_true_some b : is_true (Some b) = b.
Proof. now destruct b. Qed.

Lemma is_true_ilike v pat :
  is_true (sql_ilike v pat) =
  match v with
  | Some s => ilike s pat
  | None => false
  end.
Proof.
  destruct v as [s|]; simpl; [now destruct (ilike s pat) | reflexivity].
Qed.

Lemma contains_empty s : contains "" s = true.
Proof. destruct s; reflexivity. Qed.

(** One text fragment: absent or empty, it constrains nothing; so does the
    substring test on the empty text. *)
Lemma text_fragment (v : option string) (c : string -> clause)
      (p : string -> bool) r :
  (forall u, plain_text u = true -> is_true (c u r) = p u) ->
  p ""%string = true ->
  plain_filter v = true ->
  forallb (fun c : clause => is_true (c r)) (fragment (truthy v) c) =
  opt_filter v p.
Proof.
  intros Hc Hempty Hplain.
  destruct v as [[|a u]|]; simpl.
  - now rewrite Hempty.
  - rewrite andb_true_r. apply Hc. exact Hplain.
  - reflexivity.
Qed.

Lemma date_fragment (v : option Z) (c : Z -> clause) (p : Z -> bool) r :
  (forall d, is_true (c d r) = p d) ->
  forallb (fun c : clause => is_true (c r)) (fragment v c) = opt_filter v p.
Proof.
  intros Hc. destruct v as [d|]; simpl; [|reflexivity].
  now rewrite andb_true_r.
Qed.

(** On filter texts without ILIKE operators, the WHERE clause the handler
    builds selects a row exactly when the row passes the filters as the
    specification words them. *)
Lemma selected_spec_matches q r :
  plain_filter (Query.user q) = true ->
  plain_filter (Query.printer q) = true ->
  plain_filter (Query.search q) = true ->
  selected q r = spec_matches q r.
Proof.
  intros Hu Hp Hs.
  unfold selected, where_fragments, spec_matches.
  rewrite where_clause_forallb, !forallb_app.
  rewrite (text_fragment (Query.user q) _
             (fun u => contains_ci u (user_name r))); auto.
  2:{ intros u H. rewrite is_true_ilike. now apply ilike_contains_ci. }
  2:{ apply contains_empty. }
  rewrite (text_fragment (Query.printer q) _
             (fun u => contains_ci u (printer_name r))); auto.
  2:{ intros u H. rewrite is_true_ilike. now apply ilike_contains_ci. }
  2:{ apply contains_empty. }
  rewrite (date_fragment (Query.startDate q) _
             (fun d => at_least d (print_time r))).
  2:{ intros d. unfold sql_ge, at_least.
      destruct (print_time r); [apply is_true_some | reflexivity]. }
  rewrite (date_fragment (Query.endDate q) _
             (fun d => at_most d (print_time r))).
  2:{ intros d. unfold sql_le, at_most.
      destruct (print_time r); [apply is_true_some | reflexivity]. }
  rewrite (text_fragment (Query.search q) _
             (fun s => doc_contains_ci s (document_name r)
                       || contains_ci s (user_name r))); auto.
  2:{ intros u H. rewrite is_true_or, !is_true_ilike.
      rewrite (ilike_contains_ci u (user_name r) H).
      destruct (document_name r) as [d|]; simpl; [|reflexivity].
      now rewrite (ilike_contains_ci u d H). }
  2:{ unfold contains_ci. simpl lower. rewrite contains_empty.
      apply orb_true_r. }
  now rewrite !andb_assoc.
Qed.

(** C3, as stated, fails: the user filter [_] selects the record of user
    alice, whose name has no underscore in it. *)
Lemma underscore_filter_selects_alice :
  In record_a (matching store_a (with_user no_filter "_")) /\
  spec_matches (with_user no_filter "_") record_a = false.
Proof. split; [left; reflexivity | reflexivity]. Qed.

(** C3, amended: when the user, printer and free-text filters have none of
    the characters [%], [_] and [\], a stored record is among the matching
    rows exactly when it passes every supplied filter: the user and printer
    filters as case-insensitive substrings of the user and printer name, the
    dates as inclusive bounds on the print time, the free text as a
    case-insensitive substring of the document name or of the user name. *)
Theorem query_filters_conjoined st q r :
  plain_filter (Query.user q) = true ->
  plain_filter (Query.printer q) = true ->
  plain_filter (Query.search q) = true ->
  (In r (matching st q) <-> In r (rows st) /\ spec_matches q r = true).
Proof.
  intros Hu Hp Hs. unfold matching.
  rewrite filter_In, selected_spec_matches by assumption.
  reflexivity.
Qed.

Lemma query_filters_conjoined_witness :
  In record_a (matching store_a (with_user no_filter "ALI")) <->
  In record_a (rows store_a) /\
  spec_matches (with_user no_filter "ALI") record_a = true.
Proof.
  apply (query_filters_conjoined store_a (with_user no_filter "ALI") record_a);
    reflexivity.
Defined.

(** ** ORDER BY ... DESC *)

Section OrderBy.
Context {A : Type} (key : A -> option Z).

Lemma desc_before_total a b :
  desc_before a b = true \/ desc_before b a = true.
Proof. destruct a, b; simpl; auto. lia. Qed.

Lemma desc_before_trans a b c :
  desc_before a b = true -> desc_before b c = true -> desc_before a c = true.
Proof. destruct a, b, c; simpl; try discriminate; auto. lia. Qed.

Lemma desc_before_antisym a b :
  desc_before a b = true -> desc_before b a = true -> a = b.
Proof.
  destruct a, b; simpl; try discriminate; auto.
  intros H1 H2. f_equal. lia.
Qed.

Lemma insert_desc_perm a l : Permutation (a :: l) (insert_desc key a l).
Proof.
  induction l as [|b l IH]; simpl; [reflexivity|].
  destruct (desc_before (key a) (key b)); [reflexivity|].
  rewrite perm_swap. now apply perm_skip.
Qed.

Lemma insert_desc_sorted a l :
  StronglySorted (descending key) l ->
  StronglySorted (descending key) (insert_desc key a l).
Proof.
  induction 1 as [|b l Hs IH Hb]; simpl.
  - repeat constructor.
  - destruct (desc_before (key a) (key b)) eqn:E.
    + constructor; [now constructor|].
      constructor; [exact E|].
      eapply Forall_impl; [|exact Hb].
      intros x Hx. eapply desc_before_trans; eassumption.
    + constructor; [exact IH|].
      eapply Permutation_Forall; [apply insert_desc_perm|].
      constructor; [|exact Hb].
      destruct (desc_before_total (key a) (key b)) as [H|H];
        [congruence | exact H].
Qed.

(** [sort_desc] computes one of the admissible orders: the statement
    always has a result. *)
Lemma sort_desc_order_by l : order_by_desc key l (sort_desc key l).
Proof.
  split.
  - induction l as [|a l IH]; simpl; [reflexivity|].
    rewrite <- insert_desc_perm. now apply perm_skip.
  - induction l as [|a l IH]; simpl; [constructor|].
    now apply insert_desc_sorted.
Qed.

Lemma NoDup_map_injective (l : list A) a b :
  NoDup (map key l) -> In a l -> In b l -> key a = key b -> a = b.
Proof.
  induction l as [|x l IH]; simpl; [contradiction|].
  intros Hnd Ha Hb E. inversion Hnd as [|? ? Hx Hl]; subst.
  destruct Ha as [->|Ha], Hb as [->|Hb]; auto.
  - exfalso. apply Hx. rewrite E. now apply in_map.
  - exfalso. apply Hx. rewrite <- E. now apply in_map.
Qed.

(** Two descending arrangements of rows whose keys differ pairwise are the
    same list. *)
Lemma sorted_perm_unique : forall l1 l2 : list A,
  NoDup (map key l1) ->
  Permutation l1 l2 ->
  StronglySorted (descending key) l1 ->
  StronglySorted (descending key) l2 ->
  l1 = l2.
Proof.
  induction l1 as [|a l1 IH]; intros l2 Hnd Hp H1 H2.
  - apply Permutation_nil in Hp. now subst.
  - destruct l2 as [|b l2].
    { apply Permutation_sym, Permutation_nil in Hp. discriminate. }
    assert (E : a = b).
    { assert (Ha : In a (b :: l2))
        by (eapply Permutation_in; [exact Hp | now left]).
      assert (Hb : In b (a :: l1))
        by (eapply Permutation_in;
            [apply Permutation_sym; exact Hp | now left]).
      destruct Ha as [->|Ha]; [reflexivity|].
      destruct Hb as [->|Hb]; [reflexivity|].
      inversion H1 as [|? ? _ Fa]; inversion H2 as [|? ? _ Fb]; subst.
      rewrite Forall_forall in Fa, Fb.
      apply (NoDup_map_injective (a :: l1)); auto; [now left | now right|].
      apply desc_before_antisym; [apply Fa | apply Fb]; assumption. }
    subst b. f_equal.
    apply IH.
    + now inversion Hnd.
    + eapply Permutation_cons_inv; exact Hp.
    + now inversion H1.
    + now inversion H2.
Qed.

Lemma order_by_desc_unique l out :
  NoDup (map key l) ->
  order_by_desc key l out -> out = sort_desc key l.
Proof.
  intros Hnd [Hp Hs].
  destruct (sort_desc_order_by l) as [Hp' Hs'].
  symmetry. apply sorted_perm_unique; auto.
  - eapply Permutation_NoDup; [|exact Hnd].
    apply Permutation_map. exact Hp'.
  - now rewrite <- Hp'.
Qed.

Lemma StronglySorted_skipn (R : A -> A -> Prop) n : forall l,
  StronglySorted R l -> StronglySorted R (skipn n l).
Proof.
  induction n as [|n IH]; intros l H; [exact H|].
  destruct l; [constructor|]. simpl. apply IH. now inversion H.
Qed.

Lemma StronglySorted_firstn (R : A -> A -> Prop) n : forall l,
  StronglySorted R l -> StronglySorted R (firstn n l).
Proof.
  induction n as [|n IH]; intros l H; [constructor|].
  destruct l as [|a l]; [constructor|]. simpl.
  inversion H as [|? ? Hs Ha]; subst.
  constructor; [now apply IH|].
  rewrite Forall_forall in *. intros x Hx. apply Ha.
  rewrite <- (firstn_skipn n l). apply in_or_app. now left.
Qed.

End OrderBy.

(** ** Pages of the query *)

Lemma count_matching_length st q :
  count_matching st q = Z.of_nat (List.length (matching st q)).
Proof. reflexivity. Qed.

Lemma matching_with_page st q k : matching st (with_page q k) = matching st q.
Proof. reflexivity. Qed.

Lemma offset_with_page q k :
  offset_of (with_page q k) = (k - 1) * limit_of q.
Proof. reflexivity. Qed.

Lemma select_page_ok_inv st q n m data :
  select_page st q n m (inr data) ->
  0 <= n /\ 0 <= m /\
  exists l, order_by_desc print_time (matching st q) l /\
            data = limit_offset n m l.
Proof. intros H. inversion H; subst. eauto. Qed.

Lemma select_page_error_inv st q n m e :
  select_page st q n m (inl e) -> n < 0 \/ m < 0.
Proof. intros H. inversion H; subst; auto. Qed.

(** The handler always answers: the computed response is one of its
    responses. *)
Lemma get_print_jobs_run_ok st q :
  get_print_jobs st q (get_print_jobs_run st q).
Proof.
  unfold get_print_jobs_run.
  destruct (limit_of q <? 0) eqn:El; simpl.
  - apply Z.ltb_lt in El.
    apply (get_failed st q negative_limit). now constructor.
  - apply Z.ltb_ge in El. destruct (offset_of q <? 0) eqn:Eo.
    + apply Z.ltb_lt in Eo.
      apply (get_failed st q negative_offset). now constructor.
    + apply Z.ltb_ge in Eo. apply get_ok. constructor; auto.
      apply sort_desc_order_by.
Qed.

Lemma get_print_jobs_inv st q resp :
  get_print_jobs st q resp ->
  (resp = FetchFailed /\ (limit_of q < 0 \/ offset_of q < 0)) \/
  (0 <= limit_of q /\ 0 <= offset_of q /\
   exists l, order_by_desc print_time (matching st q) l /\
     resp = JobsOk (limit_offset (limit_of q) (offset_of q) l)
                   (pagination_of st q)).
Proof.
  intros H. inversion H as [e He|data Hd]; subst.
  - left. split; [reflexivity|]. eapply select_page_error_inv; eassumption.
  - right. apply select_page_ok_inv in Hd.
    destruct Hd as (Hn & Hm & l & Hl & ->). eauto.
Qed.



(** [Math.ceil(a / b)] for a positive divisor is the least [p] with
    [a <= p * b]. *)
Lemma js_ceil_div_pos a b :
  0 < b ->
  exists p, js_ceil_div a b = js_int p /\ (p - 1) * b < a <= p * b.
Proof.
  intros Hb. unfold js_ceil_div.
  destruct (b =? 0) eqn:E; [apply Z.eqb_eq in E; lia|].
  exists (- (- a / b)). split; [reflexivity|].
  pose proof (Z.div_mod (- a) b ltac:(lia)).
  pose proof (Z.mod_pos_bound (- a) b Hb). nia.
Qed.

Lemma js_ceil_div_formula a b :
  0 < b -> js_ceil_div a b = js_int ((a + b - 1) / b).
Proof.
  intros Hb. destruct (js_ceil_div_pos a b Hb) as (p & -> & Hp).
  f_equal.
  apply (Z.div_unique_pos _ _ _ (a + b - 1 - b * p)); lia.
Qed.

(** Cutting a list into [m] slices of [n] items and putting them back. *)
Lemma slices_concat {A} (n : nat) : forall (m : nat) (l : list A),
  (List.length l <= m * n)%nat ->
  List.concat (map (fun k => firstn n (skipn (k * n) l)) (seq 0 m)) = l.
Proof.
  induction m as [|m IH]; intros l Hlen.
  - destruct l; [reflexivity | simpl in Hlen; lia].
  - change (seq 0 (S m)) with (0%nat :: seq 1 m).
    rewrite <- seq_shift, map_cons, map_map, concat_cons.
    change (skipn (0 * n) l) with l.
    transitivity (firstn n l ++ skipn n l); [|apply firstn_skipn]. f_equal.
    rewrite <- (IH (skipn n l)).
    + f_equal. apply map_ext. intros k.
      rewrite skipn_skipn. f_equal. f_equal. simpl. lia.
    + rewrite length_skipn. simpl in Hlen. lia.
Qed.

Lemma get_print_jobs_with_order st q l :
  0 <= limit_of q -> 0 <= offset_of q ->
  order_by_desc print_time (matching st q) l ->
  get_print_jobs st q
    (JobsOk (limit_offset (limit_of q) (offset_of q) l) (pagination_of st q)).
Proof. intros Hn Hm Hl. apply get_ok. now constructor. Qed.

Lemma page_total_covers st q :
  1 <= limit_of q ->
  (List.length (matching st q) <= page_total st q * Z.to_nat (limit_of q))%nat.
Proof.
  intros Hn. unfold page_total. rewrite count_matching_length.
  set (c := Z.of_nat (List.length (matching st q))).
  assert (Hc : 0 <= c) by (unfold c; lia).
  pose proof (Z.div_mod (c + limit_of q - 1) (limit_of q) ltac:(lia)) as Hd.
  pose proof (Z.mod_pos_bound (c + limit_of q - 1) (limit_of q) ltac:(lia))
    as Hb.
  assert (Hq : 0 <= (c + limit_of q - 1) / limit_of q)
    by (apply Z.div_pos; lia).
  assert (Hz : c <= (c + limit_of q - 1) / limit_of q * limit_of q) by nia.
  apply Nat2Z.inj_le. rewrite Nat2Z.inj_mul, !Z2Nat.id by lia. exact Hz.
Qed.

(** For a positive limit, the [pages] of the response is the number of
    pages [page_total]. *)
Lemma page_total_pages st q :
  1 <= limit_of q ->
  Pagination.pages (pagination_of st q) = js_int (Z.of_nat (page_total st q)).
Proof.
  intros Hn. cbn [pagination_of Pagination.pages].
  rewrite js_ceil_div_formula by lia. unfold page_total.
  rewrite Z2Nat.id; [reflexivity|].
  apply Z.div_pos; [|lia]. rewrite count_matching_length. lia.
Qed.

(** C4, as stated, fails: with two records of one print time the store may
    answer the same request in either order, and, read one record per page,
    may return the same record on page 1 and on page 2. *)
Lemma pages_may_repeat_a_record :
  print_time record_a = print_time record_b /\
  (exists p,
     get_print_jobs store_ab no_filter (JobsOk [record_a; record_b] p)) /\
  (exists p,
     get_print_jobs store_ab no_filter (JobsOk [record_b; record_a] p)) /\
  page_total store_ab (with_limit no_filter 1) = 2%nat /\
  (exists p, get_print_jobs store_ab (with_page (with_limit no_filter 1) 1)
               (JobsOk [record_a] p)) /\
  (exists p, get_print_jobs store_ab (with_page (with_limit no_filter 1) 2)
               (JobsOk [record_a] p)) /\
  ~ Permutation (matching store_ab (with_limit no_filter 1))
                ([record_a] ++ [record_a]).
Proof.
  assert (Hab : order_by_desc print_time [record_a; record_b]
                  [record_a; record_b]).
  { split; [reflexivity|]. repeat constructor. }
  assert (Hba : order_by_desc print_time [record_a; record_b]
                  [record_b; record_a]).
  { split; [apply perm_swap|]. repeat constructor. }
  split; [reflexivity|].
  split.
  { eexists. apply (get_print_jobs_with_order store_ab no_filter
                      [record_a; record_b]); [cbn; lia .. | exact Hab]. }
  split.
  { eexists. apply (get_print_jobs_with_order store_ab no_filter
                      [record_b; record_a]); [cbn; lia .. | exact Hba]. }
  split; [reflexivity|].
  split.
  { eexists.
    apply (get_print_jobs_with_order store_ab
             (with_page (with_limit no_filter 1) 1) [record_a; record_b]);
      [cbn; lia .. | exact Hab]. }
  split.
  { eexists.
    apply (get_print_jobs_with_order store_ab
             (with_page (with_limit no_filter 1) 2) [record_b; record_a]);
      [cbn; lia .. | exact Hba]. }
  intros Hp.
  assert (Hin : In record_b ([record_a] ++ [record_a])).
  { eapply Permutation_in; [exact Hp|]. right. left. reflexivity. }
  destruct Hin as [H|[H|[]]]; discriminate H.
Qed.

(** C4, amended: every page of results is in descending order of print
    time, the order among equal print times being the store's choice; and
    when the matching records have pairwise different print times, pages
    1 .. ceil(total / limit) put one after the other hold every matching
    record exactly once, in descending order of print time. *)
Theorem pages_in_descending_order st q :
  1 <= limit_of q ->
  (forall data p,
     get_print_jobs st q (JobsOk data p) ->
     StronglySorted (descending print_time) data) /\
  (NoDup (map print_time (matching st q)) ->
   forall pages : nat -> list print_job,
     (forall k, (k < page_total st q)%nat ->
        exists p, get_print_jobs st (with_page q (Z.of_nat k + 1))
                    (JobsOk (pages k) p)) ->
     Permutation (matching st q)
       (List.concat (map pages (seq 0 (page_total st q)))) /\
     StronglySorted (descending print_time)
       (List.concat (map pages (seq 0 (page_total st q))))).
Proof.
  intros Hn. split.
  - intros data p H. apply get_print_jobs_inv in H.
    destruct H as [[H _]|(_ & _ & l & [_ Hs] & H)]; [discriminate|].
    inversion H; subst. unfold limit_offset.
    now apply StronglySorted_firstn, StronglySorted_skipn.
  - intros Hnd pages Hpages.
    set (sorted := sort_desc print_time (matching st q)).
    assert (E : List.concat (map pages (seq 0 (page_total st q))) = sorted).
    { rewrite <- (slices_concat (Z.to_nat (limit_of q)) (page_total st q)
                    sorted).
      - f_equal. apply map_ext_in. intros k Hk. apply in_seq in Hk.
        destruct (Hpages k ltac:(lia)) as (p & H).
        apply get_print_jobs_inv in H.
        destruct H as [[H _]|(_ & _ & l & Hl & H)]; [discriminate|].
        inversion H as [[Hdata Hpg]]. clear H Hpg.
        rewrite matching_with_page in Hl.
        apply order_by_desc_unique in Hl; [|exact Hnd]. subst l.
        rewrite Hdata, offset_with_page.
        change (limit_of (with_page q (Z.of_nat k + 1))) with (limit_of q).
        unfold limit_offset. fold sorted.
        replace (Z.to_nat ((Z.of_nat k + 1 - 1) * limit_of q))
          with (k * Z.to_nat (limit_of q))%nat; [reflexivity|].
        rewrite Z2Nat.inj_mul by lia. f_equal. lia.
      - unfold sorted.
        rewrite <- (Permutation_length
                      (proj1 (sort_desc_order_by print_time _))).
        now apply page_total_covers. }
    rewrite E. apply sort_desc_order_by.
Qed.

Lemma pages_in_descending_order_witness :
  Permutation (matching store_ac (with_limit no_filter 1))
    (List.concat (map pages_ac
       (seq 0 (page_total store_ac (with_limit no_filter 1))))) /\
  StronglySorted (descending print_time)
    (List.concat (map pages_ac
       (seq 0 (page_total store_ac (with_limit no_filter 1))))).
Proof.
  apply (proj2 (pages_in_descending_order store_ac (with_limit no_filter 1)
                  ltac:(cbn; lia))).
  - repeat constructor; simpl; intuition discriminate.
  - intros k Hk.
    destruct k as [|[|k]].
    + eexists. apply (get_print_jobs_run_ok store_ac
                        (with_page (with_limit no_filter 1) 1)).
    + eexists. apply (get_print_jobs_run_ok store_ac
                        (with_page (with_limit no_filter 1) 2)).
    + exfalso. change (page_total store_ac (with_limit no_filter 1))
        with 2%nat in Hk. lia.
Defined.









(** ** Statistics *)

Lemma date_filter_in_range q r : date_filter q r = in_range q r.
Proof.
  unfold date_filter, in_range.
  destruct (StatsQuery.startDate q) as [s|], (StatsQuery.endDate q) as [e|];
    try reflexivity.
  rewrite is_true_and. unfold sql_ge, sql_le, at_least, at_most.
  destruct (print_time r); cbn [option_map];
    [now rewrite !is_true_some | reflexivity].
Qed.

Lemma in_window_in_range st q : in_window st q = filter (in_range q) (rows st).
Proof. apply filter_ext. intros r. apply date_filter_in_range. Qed.

(** The sum the handler reports: NULL page counts count for nothing, and
    the NULL sum of no page count at all is reported as 0. *)
Lemma js_or_sql_sum l : js_or (sql_sum (map page_count l)) 0 = pages_sum l.
Proof.
  induction l as [|r l IH]; simpl; [reflexivity|].
  rewrite <- IH.
  destruct (page_count r) as [x|]; simpl; [|reflexivity].
  destruct (sql_sum (map page_count l)); simpl; lia.
Qed.

Lemma sql_sum_all_present l :
  Forall (fun r => page_count r <> None) l -> l <> [] ->
  sql_sum (map page_count l) = Some (pages_sum l).
Proof.
  intros Hall Hne.
  pose proof (js_or_sql_sum l) as H.
  destruct (sql_sum (map page_count l)) as [x|] eqn:E; [simpl in H; now subst|].
  exfalso. destruct l as [|r l]; [contradiction|].
  inversion Hall as [|? ? Hr _]; subst. simpl in E.
  destruct (page_count r); [|contradiction].
  destruct (sql_sum (map page_count l)); discriminate.
Qed.

Lemma get_stats_run_ok st q : get_stats st q (get_stats_run st q).
Proof.
  apply stats_ok; eexists; (split; [apply sort_desc_order_by | reflexivity]).
Qed.

(** C7: the statistics are always answered; totalJobs is the number of
    records passing the date filter, totalPages the sum of their page
    counts, and totalPages is 0 when no record passes. *)
Theorem stats_totals st q :
  get_stats st q (get_stats_run st q) /\
  forall out,
    get_stats st q out ->
    totalJobs out = jobs_number (filter (in_range q) (rows st)) /\
    totalPages out = pages_sum (filter (in_range q) (rows st)) /\
    (filter (in_range q) (rows st) = [] -> totalPages out = 0).
Proof.
  split; [apply get_stats_run_ok|].
  intros out H. inversion H as [users printers _ _]; subst. cbn.
  unfold count_jobs, sum_pages. rewrite js_or_sql_sum, in_window_in_range.
  repeat split. intros E. now rewrite E.
Qed.

Lemma stats_totals_witness :
  totalJobs (get_stats_run store_scenario no_window)
    = jobs_number (filter (in_range no_window) (rows store_scenario)) /\
  totalPages (get_stats_run store_scenario no_window)
    = pages_sum (filter (in_range no_window) (rows store_scenario)) /\
  (filter (in_range no_window) (rows store_scenario) = [] ->
   totalPages (get_stats_run store_scenario no_window) = 0).
Proof.
  apply (proj2 (stats_totals store_scenario no_window)).
  apply get_stats_run_ok.
Defined.

Lemma NoDup_firstn {A} n (l : list A) : NoDup l -> NoDup (firstn n l).
Proof.
  intros H. rewrite <- (firstn_skipn n l) in H.
  eapply NoDup_app_remove_r. exact H.
Qed.

Lemma StronglySorted_app_cross {A} (R : A -> A -> Prop) : forall l1 l2 x y,
  StronglySorted R (l1 ++ l2) -> In x l1 -> In y l2 -> R x y.
Proof.
  induction l1 as [|a l1 IH]; intros l2 x y Hs Hx Hy; [contradiction|].
  simpl in Hs. inversion Hs as [|? ? Hs' Ha]; subst.
  destruct Hx as [->|Hx].
  - rewrite Forall_forall in Ha. apply Ha. apply in_or_app. now right.
  - eapply IH; eassumption.
Qed.

Lemma StronglySorted_impl_in {A} (R R' : A -> A -> Prop) : forall l,
  (forall a b, In a l -> In b l -> R a b -> R' a b) ->
  StronglySorted R l -> StronglySorted R' l.
Proof.
  induction l as [|a l IH]; intros Himp Hs; [constructor|].
  inversion Hs as [|? ? Hs' Ha]; subst. constructor.
  - apply IH; [|exact Hs']. intros x y Hx Hy. apply Himp; now right.
  - rewrite Forall_forall in *. intros x Hx.
    apply Himp; [now left | now right | now apply Ha].
Qed.

Section Ranking.
Variable by_name : print_job -> string.
Variable l : list print_job.

Lemma group_by_names : map Group.name (group_by by_name l)
                       = nodup string_dec (map by_name l).
Proof. unfold group_by. rewrite map_map. apply map_id. Qed.

Lemma in_group_by g :
  In g (group_by by_name l) <->
  In (Group.name g) (map by_name l) /\ g = aggregate by_name l (Group.name g).
Proof.
  unfold group_by. rewrite in_map_iff. split.
  - intros (n & <- & Hn). apply nodup_In in Hn. now split.
  - intros [Hn Hg]. exists (Group.name g). split; [now symmetry|].
    now apply nodup_In.
Qed.

Lemma jobs_of_nonempty n : In n (map by_name l) -> jobs_of by_name l n <> [].
Proof.
  intros Hn. apply in_map_iff in Hn. destruct Hn as (r & <- & Hr).
  intros E.
  assert (Hin : In r (jobs_of by_name l (by_name r))).
  { apply filter_In. split; [exact Hr | apply String.eqb_refl]. }
  rewrite E in Hin. contradiction.
Qed.

(** The first ten of a descending arrangement of the groups rank the
    names, once the sort key is a score of the group's rows and every row
    has a page count. *)
Lemma top_ten_ranked (key : Group.t -> option Z) (score : list print_job -> Z)
      (sorted : list Group.t) :
  Forall (fun r => page_count r <> None) l ->
  (forall n, In n (map by_name l) ->
     key (aggregate by_name l n) = Some (score (jobs_of by_name l n))) ->
  order_by_desc key (group_by by_name l) sorted ->
  ranked by_name score l (firstn 10 sorted).
Proof.
  intros Hall Hkey [Hperm Hsorted].
  assert (Hin : forall g, In g sorted ->
            In (Group.name g) (map by_name l) /\
            g = aggregate by_name l (Group.name g)).
  { intros g Hg. apply in_group_by.
    eapply Permutation_in; [apply Permutation_sym; exact Hperm | exact Hg]. }
  assert (Hfirst : forall g, In g (firstn 10 sorted) -> In g sorted).
  { intros g Hg. rewrite <- (firstn_skipn 10 sorted).
    apply in_or_app. now left. }
  assert (Hrel : forall a b, In a sorted -> In b sorted ->
            descending key a b ->
            score (jobs_of by_name l (Group.name b))
            <= score (jobs_of by_name l (Group.name a))).
  { intros a b Ha Hb Hd. unfold descending in Hd.
    destruct (Hin a Ha) as [Na Ea], (Hin b Hb) as [Nb Eb].
    rewrite Ea, Eb, !Hkey in Hd by assumption. simpl in Hd.
    now apply Z.leb_le. }
  repeat split.
  - apply firstn_le_length.
  - rewrite <- firstn_map. apply NoDup_firstn.
    eapply Permutation_NoDup; [apply Permutation_map; exact Hperm|].
    rewrite group_by_names. apply NoDup_nodup.
  - now apply Hin, Hfirst.
  - destruct (Hin g (Hfirst g H)) as [_ E]. now rewrite E at 1.
  - destruct (Hin g (Hfirst g H)) as [Hn E]. rewrite E at 1. simpl.
    apply sql_sum_all_present.
    + apply Forall_forall. intros r Hr. apply filter_In in Hr.
      rewrite Forall_forall in Hall. now apply Hall.
    + now apply jobs_of_nonempty.
  - apply StronglySorted_firstn.
    eapply StronglySorted_impl_in; [exact Hrel | exact Hsorted].
  - intros n Hn.
    assert (Hg : In (aggregate by_name l n) sorted).
    { eapply Permutation_in; [exact Hperm|]. apply in_group_by. now split. }
    rewrite <- (firstn_skipn 10 sorted) in Hg.
    apply in_app_or in Hg. destruct Hg as [Hg|Hg].
    + left. apply in_map_iff. exists (aggregate by_name l n). now split.
    + right. split.
      * apply firstn_length_le.
        destruct (Nat.le_gt_cases 10 (List.length sorted)) as [H|H]; [exact H|].
        rewrite skipn_all2 in Hg by lia. contradiction.
      * intros g Hgin.
        change n with (Group.name (aggregate by_name l n)) at 1.
        apply Hrel.
        -- now apply Hfirst.
        -- rewrite <- (firstn_skipn 10 sorted). apply in_or_app. now right.
        -- eapply (StronglySorted_app_cross _ (firstn 10 sorted)
                     (skipn 10 sorted)); [|exact Hgin|exact Hg].
           now rewrite firstn_skipn.
Qed.

End Ranking.

(** C8, as stated, fails: alice and bob have printed 5 pages each, on
    printers of one job each, and the statistics may list bob before alice
    and P2 before P1. *)
Lemma ties_may_rank_against_names :
  exists out,
    get_stats store_ad no_window out /\
    topUsers out = [group_of "bob" 1 5; group_of "alice" 1 5] /\
    topPrinters out = [group_of "P2" 1 5; group_of "P1" 1 5] /\
    ~ ties_by_name Group.page_count (topUsers out) /\
    ~ ties_by_name by_job_count (topPrinters out).
Proof.
  exists {| totalJobs := 2; totalPages := 10;
            topUsers := [group_of "bob" 1 5; group_of "alice" 1 5];
            topPrinters := [group_of "P2" 1 5; group_of "P1" 1 5] |}.
  split.
  { apply (stats_ok store_ad no_window
             [group_of "bob" 1 5; group_of "alice" 1 5]
             [group_of "P2" 1 5; group_of "P1" 1 5]).
    - exists [group_of "bob" 1 5; group_of "alice" 1 5].
      split; [|reflexivity]. split; [apply perm_swap | repeat constructor].
    - exists [group_of "P2" 1 5; group_of "P1" 1 5].
      split; [|reflexivity]. split; [apply perm_swap | repeat constructor]. }
  split; [reflexivity|]. split; [reflexivity|].
  split; intros H; inversion H as [|? ? _ Hf]; subst;
    inversion Hf as [|? ? Hx _]; subst;
    specialize (Hx eq_refl); discriminate Hx.
Qed.

(** C8, amended: over records that all have a page count, topUsers ranks
    the user names of the records passing the date filter by summed page
    count and topPrinters ranks their printer names by number of jobs, each
    highest first and in an order among equal scores that is the store's
    choice: at most 10 entries, no name twice, each with the job count and
    the summed page count of its name, and no name left out that scores
    higher than a listed one. *)
Theorem stats_rankings st q out :
  Forall (fun r => page_count r <> None) (filter (in_range q) (rows st)) ->
  get_stats st q out ->
  ranked user_name pages_sum (filter (in_range q) (rows st)) (topUsers out) /\
  ranked printer_name jobs_number (filter (in_range q) (rows st))
         (topPrinters out).
Proof.
  intros Hall H. rewrite <- in_window_in_range in *.
  inversion H as [users printers (su & Hu & ->) (sp & Hp & ->)]; subst. cbn.
  split.
  - apply (top_ten_ranked user_name _ Group.page_count); auto.
    intros n Hn. simpl.
    apply sql_sum_all_present.
    + apply Forall_forall. intros r Hr. apply filter_In in Hr.
      rewrite Forall_forall in Hall. now apply Hall.
    + now apply jobs_of_nonempty.
  - apply (top_ten_ranked printer_name _ by_job_count); auto.
Qed.

Lemma stats_rankings_witness :
  ranked user_name pages_sum (filter (in_range no_window) (rows store_ac))
         (topUsers (get_stats_run store_ac no_window)) /\
  ranked printer_name jobs_number
         (filter (in_range no_window) (rows store_ac))
         (topPrinters (get_stats_run store_ac no_window)).
Proof.
  apply (stats_rankings store_ac no_window (get_stats_run store_ac no_window)).
  - repeat constructor; discriminate.
  - apply get_stats_run_ok.
Defined.

(** ** A scenario: two reports, then the query and the statistics *)

Example scenario_rows :
  map (fun r => (id r, user_name r, page_count r, print_time r))
      (rows store_scenario)
  = [(1, "alice"%string, Some 5, Some 200);
     (2, "bob"%string, Some 3, Some 100)].
Proof. reflexivity. Qed.

Example scenario_query :
  exists data,
    get_print_jobs_run store_scenario (with_limit no_filter 10)
    = JobsOk data {| Pagination.page := 1; Pagination.limit := 10;
                     Pagination.total := 2;
                     Pagination.pages := js_int 1 |} /\
    map user_name data = ["alice"%string; "bob"%string].
Proof. eexists. split; reflexivity. Qed.

Example scenario_query_user :
  exists data p,
    get_print_jobs_run store_scenario (with_user no_filter "ALI")
    = JobsOk data p /\
    map user_name data = ["alice"%string] /\ Pagination.total p = 1.
Proof. eexists; eexists. repeat split; reflexivity. Qed.

Example scenario_stats :
  get_stats_run store_scenario no_window
  = {| totalJobs := 2; totalPages := 8;
       topUsers := [group_of "alice" 1 5; group_of "bob" 1 3];
       topPrinters := [group_of "P1" 2 8] |}.
Proof. reflexivity. Qed.

Example scenario_stats_outside :
  get_stats_run store_scenario
    {| StatsQuery.startDate := Some 500; StatsQuery.endDate := Some 600 |}
  = {| totalJobs := 0; totalPages := 0; topUsers := []; topPrinters := [] |}.
Proof. reflexivity. Qed.

(** ** More on ingestion *)







Lemma post_outcome now db_now st b resp st' :
  post_print_jobs now db_now st b = (resp, st') ->
  match resp with
  | Created r =>
      rows st' = rows st ++ [r] /\
      id r = next_id st /\ next_id st' = next_id st + 1 /\
      created_at r = Some db_now /\
      print_time r = Some (js_or (Body.printTime b) now)
  | SaveFailed => rows st' = rows st /\ next_id st <= next_id st'
  end.
Proof.
  intros H. destruct resp as [r|].
  - apply post_created_inv, insert_ok_inv in H.
    destruct H as (_ & _ & _ & _ & _ & _ & _ & _ & _ & Hid & Ht & Hc & ->).
    cbn. auto.
  - unfold post_print_jobs in H.
    destruct (insert_print_job db_now st (post_params now b))
      as [[e|r] st0] eqn:E; inversion H; subst.
    split.
    + eapply insert_failed_rows; eassumption.
    + eapply insert_failed_next_id; eassumption.
Qed.

(** A successful POST appends the record it returns, and only that one, at
    the end of the table; the record has the next value of the sequence as
    its id and the database's time as its creation time.  A failed POST
    leaves every row as it was. *)
Theorem post_appends_the_record now db_now st b resp st' :
  post_print_jobs now db_now st b = (resp, st') ->
  match resp with
  | Created r =>
      rows st' = rows st ++ [r] /\
      id r = next_id st /\ next_id st' = next_id st + 1 /\
      created_at r = Some db_now /\
      print_time r = Some (js_or (Body.printTime b) now)
  | SaveFailed => rows st' = rows st /\ next_id st <= next_id st'
  end.
Proof. apply post_outcome. Qed.

Lemma post_appends_the_record_witness :
  rows store_a = rows empty_store ++ [record_a] /\
  id record_a = next_id empty_store /\
  next_id store_a = next_id empty_store + 1 /\
  created_at record_a = Some 1001 /\
  print_time record_a = Some (js_or (Body.printTime report_a) 1000).
Proof.
  apply (post_appends_the_record 1000 1001 empty_store report_a
           (Created record_a) store_a).
  reflexivity.
Defined.

(** In a store built by ingestion the ids grow strictly in the order of
    insertion, stay below the next value of the sequence, and every record
    has a print time and a creation time. *)
Theorem reachable_ids_increase st :
  reachable st ->
  StronglySorted Z.lt (map id (rows st)) /\
  Forall (fun r => 1 <= id r < next_id st) (rows st) /\
  Forall (fun r => print_time r <> None /\ created_at r <> None) (rows st).
Proof.
  induction 1 as [|now db_now st b resp st' Hr (Hs & Hlt & Hpt) Hpost].
  - repeat split; constructor.
  - apply post_outcome in Hpost. destruct resp as [r|].
    + destruct Hpost as (Hrows & Hid & Hnext & Hc & Ht).
      assert (Hone : 1 <= next_id st).
      { clear -Hr. induction Hr as [|? ? ? ? resp ? ? IH Hp];
          [cbn; lia|].
        apply post_outcome in Hp. destruct resp; lia. }
      rewrite Hrows, Hnext. repeat split.
      * rewrite map_app. simpl.
        clear -Hs Hlt Hid. induction (rows st) as [|a l IH]; simpl.
        { repeat constructor. }
        inversion Hs as [|? ? Hs' Ha]; inversion Hlt as [|? ? Hla Hl]; subst.
        constructor; [now apply IH|].
        apply Forall_app. split; [exact Ha|]. constructor; [lia|constructor].
      * apply Forall_app. split.
        -- eapply Forall_impl; [|exact Hlt]. simpl. intros; lia.
        -- constructor; [lia|constructor].
      * apply Forall_app. split; [exact Hpt|].
        constructor; [|constructor]. rewrite Hc, Ht. split; discriminate.
    + destruct Hpost as [Hrows Hnext]. rewrite Hrows. repeat split; auto.
      eapply Forall_impl; [|exact Hlt]. simpl. intros; lia.
Qed.

Lemma reachable_ids_increase_witness :
  StronglySorted Z.lt (map id (rows store_scenario)) /\
  Forall (fun r => 1 <= id r < next_id store_scenario) (rows store_scenario) /\
  Forall (fun r => print_time r <> None /\ created_at r <> None)
         (rows store_scenario).
Proof.
  apply (reachable_ids_increase store_scenario).
  exact (proj2 (proj2 (proj2 (proj2 sample_stores_reachable)))).
Defined.

(** ** Ingestion, then the query and the statistics *)






Lemma in_window_after_post now db_now st b r st' w :
  post_print_jobs now db_now st b = (Created r, st') ->
  in_window st' w = in_window st w ++ (if in_range w r then [r] else []).
Proof.
  intros H. apply post_outcome in H. destruct H as (Hrows & _).
  unfold in_window. rewrite Hrows, filter_app. simpl.
  rewrite date_filter_in_range. now destruct (in_range w r).
Qed.

Lemma pages_sum_app l1 l2 : pages_sum (l1 ++ l2) = pages_sum l1 + pages_sum l2.
Proof.
  induction l1 as [|r l1 IH]; simpl; [reflexivity|]. rewrite IH. lia.
Qed.

Lemma stats_totals_of st w out :
  get_stats st w out ->
  totalJobs out = jobs_number (in_window st w) /\
  totalPages out = pages_sum (in_window st w).
Proof.
  intros H. inversion H; subst. cbn. unfold sum_pages.
  now rewrite js_or_sql_sum.
Qed.

(** After a successful POST of a report, the statistics over a window the
    new record falls in count one job more and the report's page count
    more (nothing more when the report had none); over any other window
    they are as before.  After a failed POST they are as before. *)
Theorem post_then_stats now db_now st b resp st' w out out' :
  post_print_jobs now db_now st b = (resp, st') ->
  get_stats st w out -> get_stats st' w out' ->
  match resp with
  | Created r =>
      page_count r = Body.pageCount b /\
      totalJobs out' = totalJobs out + (if in_range w r then 1 else 0) /\
      totalPages out'
        = totalPages out
          + (if in_range w r then js_or (Body.pageCount b) 0 else 0)
  | SaveFailed =>
      totalJobs out' = totalJobs out /\ totalPages out' = totalPages out
  end.
Proof.
  intros Hpost Hout Hout'.
  apply stats_totals_of in Hout, Hout'.
  destruct Hout as [Hj Hp], Hout' as [Hj' Hp'].
  destruct resp as [r|].
  - pose proof (in_window_after_post _ _ _ _ _ _ w Hpost) as Hw.
    apply post_stored_fields in Hpost. destruct Hpost as (Hpc & _).
    rewrite Hj, Hp, Hj', Hp', Hw, pages_sum_app. unfold jobs_number.
    rewrite length_app, <- Hpc.
    destruct (in_range w r); simpl; repeat split; lia.
  - apply post_outcome in Hpost. destruct Hpost as [Hrows _].
    unfold in_window in *. rewrite Hrows in *. now rewrite Hj, Hp, Hj', Hp'.
Qed.

Lemma post_then_stats_witness :
  page_count record_a = Body.pageCount report_a /\
  totalJobs (get_stats_run store_a no_window)
    = totalJobs (get_stats_run empty_store no_window)
      + (if in_range no_window record_a then 1 else 0) /\
  totalPages (get_stats_run store_a no_window)
    = totalPages (get_stats_run empty_store no_window)
      + (if in_range no_window record_a
         then js_or (Body.pageCount report_a) 0 else 0).
Proof.
  apply (post_then_stats 1000 1001 empty_store report_a (Created record_a)
           store_a no_window
           (get_stats_run empty_store no_window)
           (get_stats_run store_a no_window)).
  - reflexivity.
  - apply get_stats_run_ok.
  - apply get_stats_run_ok.
Defined.

(** ** More on the pages of the query *)

Lemma limit_offset_length_exact {A} n m (l : list A) :
  0 <= n -> 0 <= m ->
  Z.of_nat (List.length (limit_offset n m l))
  = Z.min n (Z.max 0 (Z.of_nat (List.length l) - m)).
Proof.
  intros Hn Hm. unfold limit_offset. rewrite length_firstn, length_skipn. lia.
Qed.

Lemma length_concat_map_ext {A B} (f g : A -> list B) (l : list A) :
  (forall a, In a l -> List.length (f a) = List.length (g a)) ->
  List.length (List.concat (map f l)) = List.length (List.concat (map g l)).
Proof.
  induction l as [|a l IH]; intros H; simpl; [reflexivity|].
  rewrite !length_app, IH, (H a); auto.
  - now left.
  - intros x Hx. apply H. now right.
Qed.

(** Whatever order the store chooses among equal print times, page [page]
    of a request with limit >= 1 holds min(limit, total - (page-1)*limit)
    records (none when that is negative), and the sizes of the pages
    1 .. ceil(total / limit) add up to the total. *)
Theorem page_sizes_add_up st q :
  1 <= limit_of q ->
  (forall data p,
     1 <= page_of q ->
     get_print_jobs st q (JobsOk data p) ->
     Z.of_nat (List.length data)
     = Z.min (limit_of q)
             (Z.max 0 (count_matching st q - (page_of q - 1) * limit_of q))) /\
  (forall pages : nat -> list print_job,
     (forall k, (k < page_total st q)%nat ->
        exists p, get_print_jobs st (with_page q (Z.of_nat k + 1))
                    (JobsOk (pages k) p)) ->
     Z.of_nat (List.length
                 (List.concat (map pages (seq 0 (page_total st q)))))
     = count_matching st q).
Proof.
  intros Hn. split.
  - intros data p Hp H. apply get_print_jobs_inv in H.
    destruct H as [[H _]|(_ & Hm & l & [Hperm _] & H)]; [discriminate|].
    inversion H; subst.
    rewrite limit_offset_length_exact by lia.
    rewrite count_matching_length, (Permutation_length Hperm). reflexivity.
  - intros pages Hpages.
    set (sorted := sort_desc print_time (matching st q)).
    rewrite (length_concat_map_ext pages
               (fun k => firstn (Z.to_nat (limit_of q))
                           (skipn (k * Z.to_nat (limit_of q)) sorted))).
    + rewrite slices_concat.
      * unfold sorted. rewrite count_matching_length.
        now rewrite <- (Permutation_length
                          (proj1 (sort_desc_order_by print_time _))).
      * unfold sorted.
        rewrite <- (Permutation_length
                      (proj1 (sort_desc_order_by print_time _))).
        now apply page_total_covers.
    + intros k Hk. apply in_seq in Hk.
      destruct (Hpages k ltac:(lia)) as (p & H).
      apply get_print_jobs_inv in H.
      destruct H as [[H _]|(_ & _ & l & [Hperm _] & H)]; [discriminate|].
      inversion H as [[Hdata Hpg]]. clear H Hpg.
      rewrite matching_with_page in Hperm.
      rewrite Hdata, offset_with_page.
      change (limit_of (with_page q (Z.of_nat k + 1))) with (limit_of q).
      unfold limit_offset.
      replace (Z.to_nat ((Z.of_nat k + 1 - 1) * limit_of q))
        with (k * Z.to_nat (limit_of q))%nat
        by (rewrite Z2Nat.inj_mul by lia; f_equal; lia).
      rewrite !length_firstn, !length_skipn.
      unfold sorted.
      rewrite <- (Permutation_length Hperm).
      now rewrite (Permutation_length
                     (proj1 (sort_desc_order_by print_time (matching st q)))).
Qed.

Lemma page_sizes_add_up_witness :
  Z.of_nat (List.length
              (List.concat
                 (map pages_ac
                    (seq 0 (page_total store_ac (with_limit no_filter 1))))))
  = count_matching store_ac (with_limit no_filter 1).
Proof.
  apply (proj2 (page_sizes_add_up store_ac (with_limit no_filter 1)
                  ltac:(cbn; lia))).
  intros k Hk.
  destruct k as [|[|k]].
  - eexists. apply (get_print_jobs_run_ok store_ac
                      (with_page (with_limit no_filter 1) 1)).
  - eexists. apply (get_print_jobs_run_ok store_ac
                      (with_page (with_limit no_filter 1) 2)).
  - exfalso. change (page_total store_ac (with_limit no_filter 1))
      with 2%nat in Hk. lia.
Defined.

(** Selecting rows keeps their ids distinct. *)
Lemma filter_ids_distinct (keep : print_job -> bool) (rs : list print_job) :
  NoDup (map id rs) -> NoDup (map id (filter keep rs)).
Proof.
  intros Hnd. induction rs as [|r rs IH]; simpl; [constructor|].
  simpl in Hnd. apply NoDup_cons_iff in Hnd. destruct Hnd as [Hr Hrs].
  destruct (keep r); simpl; [|now apply IH].
  apply NoDup_cons_iff. split; [|now apply IH].
  intros Hin. apply Hr. apply in_map_iff in Hin.
  destruct Hin as (x & E & Hx). apply filter_In in Hx.
  apply in_map_iff. exists x. tauto.
Qed.

Lemma NoDup_skipn {A} n (l : list A) : NoDup l -> NoDup (skipn n l).
Proof.
  intros H. rewrite <- (firstn_skipn n l) in H.
  eapply NoDup_app_remove_l. exact H.
Qed.

(** Every record on a page of results is a row of the store that the
    WHERE clause of the request selects, and on a store built by ingestion
    no record comes twice on one page. *)
Theorem page_records_are_selected_rows st q data p :
  get_print_jobs st q (JobsOk data p) ->
  (forall r, In r data -> In r (rows st) /\ selected q r = true) /\
  (reachable st -> NoDup (map id data)).
Proof.
  intros H. apply get_print_jobs_inv in H.
  destruct H as [[H _]|(_ & _ & l & [Hperm _] & H)]; [discriminate|].
  inversion H as [[Hdata Hpg]]. clear H Hpg.
  assert (Hsub : forall r,
            In r (limit_offset (limit_of q) (offset_of q) l) -> In r l).
  { intros r Hr. unfold limit_offset in Hr.
    rewrite <- (firstn_skipn (Z.to_nat (offset_of q)) l).
    apply in_or_app. right.
    rewrite <- (firstn_skipn (Z.to_nat (limit_of q))
                  (skipn (Z.to_nat (offset_of q)) l)).
    apply in_or_app. now left. }
  split.
  - intros r Hr. apply Hsub in Hr.
    apply (Permutation_in _ (Permutation_sym Hperm)) in Hr.
    unfold matching in Hr. apply filter_In in Hr. exact Hr.
  - intros Hreach. apply reachable_invariant in Hreach.
    destruct Hreach as (Hnd & _).
    unfold limit_offset. rewrite <- firstn_map, <- skipn_map.
    apply NoDup_firstn, NoDup_skipn.
    eapply Permutation_NoDup; [apply Permutation_map; exact Hperm|].
    unfold matching. now apply filter_ids_distinct.
Qed.

Lemma page_records_are_selected_rows_witness :
  (forall r, In r [record_a; record_b] ->
             In r (rows store_ab) /\ selected no_filter r = true) /\
  (reachable store_ab -> NoDup (map id [record_a; record_b])).
Proof.
  apply (page_records_are_selected_rows store_ab no_filter
           [record_a; record_b] (pagination_of store_ab no_filter)).
  apply (get_print_jobs_run_ok store_ab no_filter).
Defined.

(** ** More on the statistics *)

Section Groups.
Variable by_name : print_job -> string.
Variable weight : print_job -> Z.

Lemma total_of_split (p1 p2 : print_job -> bool) (l : list print_job) :
  (forall r, In r l -> p1 r && p2 r = false) ->
  total_of weight (filter (fun r => p1 r || p2 r) l)
  = total_of weight (filter p1 l) + total_of weight (filter p2 l).
Proof.
  induction l as [|r l IH]; intros H; [reflexivity|].
  assert (Hr := H r (or_introl eq_refl)).
  assert (IH' := IH (fun x Hx => H x (or_intror Hx))).
  unfold total_of in *. simpl.
  destruct (p1 r), (p2 r); simpl in *; try discriminate; lia.
Qed.

(** The weights of the groups of distinct names add up to the weight of
    the rows that have one of the names. *)
Lemma total_of_groups (l : list print_job) : forall ns,
  NoDup ns ->
  fold_right (fun n acc => total_of weight (jobs_of by_name l n) + acc) 0 ns
  = total_of weight
      (filter (fun r => existsb (String.eqb (by_name r)) ns) l).
Proof.
  induction ns as [|n ns IH]; intros Hnd; simpl.
  - induction l as [|r l' IHl]; simpl; auto.
  - inversion Hnd as [|? ? Hn Hns]; subst.
    rewrite IH by assumption. unfold jobs_of.
    rewrite <- total_of_split; [reflexivity|].
    intros r _. destruct (String.eqb (by_name r) n) eqn:E; [|reflexivity].
    apply String.eqb_eq in E. subst n. simpl.
    apply not_true_is_false. intros Hex. apply Hn.
    apply existsb_exists in Hex. destruct Hex as (x & Hx & Ex).
    apply String.eqb_eq in Ex. now subst.
Qed.

Lemma total_of_all_groups (l : list print_job) :
  fold_right (fun n acc => total_of weight (jobs_of by_name l n) + acc) 0
             (names_of by_name l)
  = total_of weight l.
Proof.
  unfold names_of. rewrite total_of_groups by apply NoDup_nodup.
  f_equal. apply forallb_filter_id. apply forallb_forall. intros r Hr.
  apply existsb_exists. exists (by_name r). split.
  - apply nodup_In. now apply in_map.
  - apply String.eqb_refl.
Qed.

End Groups.

Lemma jobs_number_total_of l : jobs_number l = total_of (fun _ => 1) l.
Proof.
  unfold jobs_number. induction l as [|r l IH]; [reflexivity|].
  simpl List.length. rewrite Nat2Z.inj_succ, IH.
  unfold total_of. cbn [fold_right]. lia.
Qed.

Lemma pages_sum_total_of l :
  pages_sum l = total_of (fun r => js_or (page_count r) 0) l.
Proof. reflexivity. Qed.

Lemma jobs_listed_group_by by_name l :
  jobs_listed (group_by by_name l) = jobs_number l.
Proof.
  rewrite jobs_number_total_of, <- (total_of_all_groups by_name).
  unfold group_by. fold (names_of by_name l).
  induction (names_of by_name l) as [|n ns IH]; simpl; [reflexivity|].
  rewrite IH. unfold sql_count. fold (jobs_number (jobs_of by_name l n)).
  now rewrite jobs_number_total_of.
Qed.

Lemma pages_listed_group_by by_name l :
  pages_listed (group_by by_name l) = pages_sum l.
Proof.
  rewrite pages_sum_total_of, <- (total_of_all_groups by_name).
  unfold group_by. fold (names_of by_name l).
  induction (names_of by_name l) as [|n ns IH]; simpl; [reflexivity|].
  now rewrite IH, js_or_sql_sum.
Qed.

Lemma jobs_listed_perm l1 l2 :
  Permutation l1 l2 -> jobs_listed l1 = jobs_listed l2.
Proof. induction 1; simpl; lia. Qed.

Lemma pages_listed_perm l1 l2 :
  Permutation l1 l2 -> pages_listed l1 = pages_listed l2.
Proof. induction 1; simpl; lia. Qed.

Lemma jobs_listed_firstn n : forall gs,
  Forall (fun g => 0 <= Group.job_count g) gs ->
  jobs_listed (firstn n gs) <= jobs_listed gs.
Proof.
  induction n as [|n IH]; intros gs H.
  - simpl. induction H; simpl; lia.
  - destruct gs as [|g gs]; simpl; [lia|].
    inversion H; subst. specialize (IH gs ltac:(assumption)). lia.
Qed.

(** What a statement with GROUP BY, ORDER BY and LIMIT 10 lists: as many
    entries as there are distinct names, ten at most; job counts that add
    up to no more than the number of rows; and, with ten names or fewer,
    job counts and page counts that add up to those of all rows. *)
Lemma top_ten_add_up by_name (key : Group.t -> option Z) l sorted :
  order_by_desc key (group_by by_name l) sorted ->
  List.length (firstn 10 sorted)
    = Nat.min 10 (List.length (names_of by_name l)) /\
  jobs_listed (firstn 10 sorted) <= jobs_number l /\
  ((List.length (names_of by_name l) <= 10)%nat ->
   jobs_listed (firstn 10 sorted) = jobs_number l /\
   pages_listed (firstn 10 sorted) = pages_sum l).
Proof.
  intros [Hperm _].
  assert (Hlen : List.length sorted = List.length (names_of by_name l)).
  { rewrite <- (Permutation_length Hperm). unfold group_by.
    now rewrite length_map. }
  split; [now rewrite length_firstn, Hlen|]. split.
  - rewrite <- (jobs_listed_group_by by_name l), (jobs_listed_perm _ _ Hperm).
    apply jobs_listed_firstn.
    eapply Permutation_Forall; [exact Hperm|].
    unfold group_by. apply Forall_forall. intros g Hg.
    apply in_map_iff in Hg. destruct Hg as (n & <- & _). simpl.
    unfold sql_count. lia.
  - intros Hten. rewrite firstn_all2 by lia.
    rewrite <- (jobs_listed_perm _ _ Hperm), <- (pages_listed_perm _ _ Hperm).
    split; [apply jobs_listed_group_by | apply pages_listed_group_by].
Qed.

(** In every answer of the statistics, topUsers has one entry per distinct
    user name of the window, ten at most, and topPrinters one per distinct
    printer name, ten at most; the job counts listed never add up to more
    than totalJobs; and when there are at most ten names, the job counts
    listed add up to totalJobs and the page counts to totalPages. *)
Theorem stats_lists_add_up st w out :
  get_stats st w out ->
  (List.length (topUsers out)
     = Nat.min 10 (List.length (names_of user_name (in_window st w))) /\
   jobs_listed (topUsers out) <= totalJobs out /\
   ((List.length (names_of user_name (in_window st w)) <= 10)%nat ->
    jobs_listed (topUsers out) = totalJobs out /\
    pages_listed (topUsers out) = totalPages out)) /\
  (List.length (topPrinters out)
     = Nat.min 10 (List.length (names_of printer_name (in_window st w))) /\
   jobs_listed (topPrinters out) <= totalJobs out /\
   ((List.length (names_of printer_name (in_window st w)) <= 10)%nat ->
    jobs_listed (topPrinters out) = totalJobs out /\
    pages_listed (topPrinters out) = totalPages out)).
Proof.
  intros H. destruct (stats_totals_of _ _ _ H) as [Hj Hp].
  rewrite Hj, Hp.
  inversion H as [users printers (su & Hu & ->) (sp & Hpr & ->)]; subst.
  cbn [topUsers topPrinters].
  split; eapply top_ten_add_up; eassumption.
Qed.

Lemma stats_lists_add_up_witness :
  (List.length (topUsers (get_stats_run store_scenario no_window))
     = Nat.min 10
         (List.length
            (names_of user_name (in_window store_scenario no_window))) /\
   jobs_listed (topUsers (get_stats_run store_scenario no_window))
     <= totalJobs (get_stats_run store_scenario no_window) /\
   ((List.length
       (names_of user_name (in_window store_scenario no_window)) <= 10)%nat ->
    jobs_listed (topUsers (get_stats_run store_scenario no_window))
      = totalJobs (get_stats_run store_scenario no_window) /\
    pages_listed (topUsers (get_stats_run store_scenario no_window))
      = totalPages (get_stats_run store_scenario no_window))) /\
  (List.length (topPrinters (get_stats_run store_scenario no_window))
     = Nat.min 10
         (List.length
            (names_of printer_name (in_window store_scenario no_window))) /\
   jobs_listed (topPrinters (get_stats_run store_scenario no_window))
     <= totalJobs (get_stats_run store_scenario no_window) /\
   ((List.length
       (names_of printer_name (in_window store_scenario no_window))
     <= 10)%nat ->
    jobs_listed (topPrinters (get_stats_run store_scenario no_window))
      = totalJobs (get_stats_run store_scenario no_window) /\
    pages_listed (topPrinters (get_stats_run store_scenario no_window))
      = totalPages (get_stats_run store_scenario no_window))).
Proof.
  apply (stats_lists_add_up store_scenario no_window
           (get_stats_run store_scenario no_window)).
  apply get_stats_run_ok.
Defined.

(** The statistics with one bound only are the statistics without
    bounds: a lone startDate or endDate is not applied, and the totals are
    those of the whole table. *)
Theorem stats_one_bound_is_no_window st w out :
  StatsQuery.startDate w = None \/ StatsQuery.endDate w = None ->
  (get_stats st w out <-> get_stats st no_window out) /\
  (get_stats st w out ->
   totalJobs out = jobs_number (rows st) /\
   totalPages out = pages_sum (rows st)).
Proof.
  intros Hone.
  assert (Hall : forall l, filter (fun _ : print_job => true) l = l).
  { intros l. apply forallb_filter_id. now apply forallb_forall. }
  assert (Hw : in_window st w = rows st).
  { unfold in_window. rewrite <- (Hall (rows st)) at 2.
    apply filter_ext. intros r. unfold date_filter.
    destruct Hone as [-> | ->]; [reflexivity|].
    now destruct (StatsQuery.startDate w). }
  assert (Hn : in_window st no_window = rows st).
  { unfold in_window. rewrite <- (Hall (rows st)) at 2. reflexivity. }
  split.
  - split; intros H; inversion H as [users printers Hu Hp]; subst.
    + rewrite Hw in Hu, Hp. rewrite <- Hn in Hu, Hp.
      replace (count_jobs st w) with (count_jobs st no_window)
        by (unfold count_jobs; now rewrite Hw, Hn).
      replace (sum_pages st w) with (sum_pages st no_window)
        by (unfold sum_pages; now rewrite Hw, Hn).
      now constructor.
    + rewrite Hn in Hu, Hp. rewrite <- Hw in Hu, Hp.
      replace (count_jobs st no_window) with (count_jobs st w)
        by (unfold count_jobs; now rewrite Hw, Hn).
      replace (sum_pages st no_window) with (sum_pages st w)
        by (unfold sum_pages; now rewrite Hw, Hn).
      now constructor.
  - intros H. apply stats_totals_of in H. now rewrite Hw in H.
Qed.

Lemma stats_one_bound_is_no_window_witness :
  (get_stats store_scenario
     {| StatsQuery.startDate := Some 500; StatsQuery.endDate := None |}
     (get_stats_run store_scenario no_window)
   <-> get_stats store_scenario no_window
         (get_stats_run store_scenario no_window)) /\
  (get_stats store_scenario
     {| StatsQuery.startDate := Some 500; StatsQuery.endDate := None |}
     (get_stats_run store_scenario no_window) ->
   totalJobs (get_stats_run store_scenario no_window)
     = jobs_number (rows store_scenario) /\
   totalPages (get_stats_run store_scenario no_window)
     = pages_sum (rows store_scenario)).
Proof.
  apply (stats_one_bound_is_no_window store_scenario
           {| StatsQuery.startDate := Some 500; StatsQuery.endDate := None |}
           (get_stats_run store_scenario no_window)).
  right. reflexivity.
Defined.

(** ** More on the filters *)

Lemma lower_ascii_idem c : lower_ascii (lower_ascii c) = lower_ascii c.
Proof. destruct c as [[] [] [] [] [] [] [] []]; reflexivity. Qed.

Lemma lower_idem s : lower (lower s) = lower s.
Proof.
  induction s as [|c s IH]; simpl; [reflexivity|].
  now rewrite lower_ascii_idem, IH.
Qed.

Lemma ilike_lower s u :
  ilike (lower s) (contains_pattern (lower u)) = ilike s (contains_pattern u).
Proof.
  unfold ilike. now rewrite !lower_contains_pattern, !lower_idem.
Qed.

Lemma truthy_lower v :
  truthy (option_map lower v) = option_map lower (truthy v).
Proof. destruct v as [[|c s]|]; reflexivity. Qed.

Lemma is_true_ilike_lower v u :
  is_true (sql_ilike (option_map lower v) (contains_pattern (lower u)))
  = is_true (sql_ilike v (contains_pattern u)).
Proof.
  rewrite !is_true_ilike. destruct v as [s|]; simpl; [|reflexivity].
  apply ilike_lower.
Qed.

(** The text filters do not see the case of letters: a request selects a
    record exactly when the request with its filter texts in lower case
    selects the record with its names in lower case. *)
Theorem filters_ignore_case q r :
  selected (lower_filters q) (lower_names r) = selected q r.
Proof.
  unfold selected, where_fragments.
  cbn [lower_filters Query.user Query.printer Query.startDate Query.endDate
       Query.search].
  rewrite !truthy_lower, !where_clause_forallb.
  destruct (truthy (Query.user q)) as [u|],
           (truthy (Query.printer q)) as [p|],
           (Query.startDate q) as [d1|], (Query.endDate q) as [d2|],
           (truthy (Query.search q)) as [x|];
    cbn [option_map fragment app forallb lower_names user_name printer_name
         document_name print_time];
    rewrite ?is_true_or;
    change (Some (lower (user_name r)))
      with (option_map lower (Some (user_name r)));
    change (Some (lower (printer_name r)))
      with (option_map lower (Some (printer_name r)));
    rewrite ?is_true_ilike_lower; reflexivity.
Qed.

Lemma like_match_any_string_skip ts : forall a s,
  like_match (any_string :: ts) s = true ->
  like_match (any_string :: ts) (a ++ s) = true.
Proof.
  induction a as [|c a IH]; intros s H; [exact H|].
  change (String c a ++ s)%string with (String c (a ++ s)).
  rewrite like_match_any_string. apply orb_true_iff. right. now apply IH.
Qed.

Lemma like_match_any_string_here ts s :
  like_match ts s = true -> like_match (any_string :: ts) s = true.
Proof.
  intros H. rewrite like_match_any_string, H. reflexivity.
Qed.

(** A text without escape character matches itself as a pattern. *)
Lemma like_match_self x rest : forall s,
  no_backslash x = true ->
  like_match (like_tokens rest) s = true ->
  like_match (like_tokens (x ++ rest)) (x ++ s) = true.
Proof.
  induction x as [|c x IH]; intros s Hx H; [exact H|].
  simpl in Hx. apply andb_prop in Hx. destruct Hx as [Hc Hx].
  apply negb_true_iff in Hc.
  change (String c x ++ rest)%string with (String c (x ++ rest)).
  change (String c x ++ s)%string with (String c (x ++ s)).
  specialize (IH s Hx H).
  cbn [like_tokens]. rewrite Hc.
  destruct (Ascii.eqb c percent).
  - rewrite like_match_any_string. apply orb_true_iff. right.
    now apply like_match_any_string_here.
  - destruct (Ascii.eqb c underscore).
    + exact IH.
    + cbn [like_match]. now rewrite Ascii.eqb_refl, IH.
Qed.

Lemma no_backslash_lower x : no_backslash (lower x) = no_backslash x.
Proof.
  induction x as [|c x IH]; simpl; [reflexivity|].
  now rewrite lower_ascii_backslash, IH.
Qed.

(** A filter text without backslash is found wherever it occurs. *)
Lemma contains_ci_ilike x s :
  no_backslash x = true ->
  contains_ci x s = true -> ilike s (contains_pattern x) = true.
Proof.
  intros Hx H. unfold contains_ci in H. apply contains_spec in H.
  destruct H as (a & b & E).
  unfold ilike. rewrite lower_contains_pattern, E. unfold contains_pattern.
  change (like_tokens (String percent (lower x ++ String percent "")))
    with (any_string :: like_tokens (lower x ++ String percent "")).
  apply like_match_any_string_skip, like_match_any_string_here.
  apply like_match_self.
  - now rewrite no_backslash_lower.
  - apply like_match_tail_any.
Qed.

Lemma text_fragment_found (v : option string) (c : string -> clause)
      (p : string -> bool) r :
  (forall u, no_backslash u = true -> p u = true -> is_true (c u r) = true) ->
  no_backslash_filter v = true ->
  opt_filter v p = true ->
  forallb (fun k : clause => is_true (k r)) (fragment (truthy v) c) = true.
Proof.
  intros Hc Hv Hp.
  destruct v as [[|a u]|]; simpl; try reflexivity.
  rewrite andb_true_r. now apply Hc.
Qed.

(** Whatever operators the filter texts contain, as long as they have no
    backslash the request selects every record that passes the filters
    read as plain case-insensitive substrings: the ILIKE operators can add
    records to the result, not remove any. *)
Theorem filters_never_miss q r :
  no_backslash_filter (Query.user q) = true ->
  no_backslash_filter (Query.printer q) = true ->
  no_backslash_filter (Query.search q) = true ->
  spec_matches q r = true -> selected q r = true.
Proof.
  intros Hu Hp Hs H. unfold spec_matches in H.
  repeat (apply andb_prop in H; destruct H as [H ?]).
  unfold selected, where_fragments.
  rewrite where_clause_forallb, !forallb_app.
  repeat (apply andb_true_intro; split).
  - apply (text_fragment_found _ _
             (fun u => contains_ci u (user_name r))); auto.
    intros u Hb Hc. rewrite is_true_ilike. now apply contains_ci_ilike.
  - apply (text_fragment_found _ _
             (fun u => contains_ci u (printer_name r))); auto.
    intros u Hb Hc. rewrite is_true_ilike. now apply contains_ci_ilike.
  - rewrite (date_fragment (Query.startDate q) _
               (fun d => at_least d (print_time r))); auto.
    intros d. unfold sql_ge, at_least.
    destruct (print_time r); [apply is_true_some | reflexivity].
  - rewrite (date_fragment (Query.endDate q) _
               (fun d => at_most d (print_time r))); auto.
    intros d. unfold sql_le, at_most.
    destruct (print_time r); [apply is_true_some | reflexivity].
  - apply (text_fragment_found _ _
             (fun s => doc_contains_ci s (document_name r)
                       || contains_ci s (user_name r))); auto.
    intros u Hb Hc. rewrite is_true_or, !is_true_ilike.
    apply orb_true_iff in Hc. apply orb_true_iff.
    destruct Hc as [Hc|Hc].
    + left. destruct (document_name r) as [d|]; [|discriminate].
      now apply contains_ci_ilike.
    + right. now apply contains_ci_ilike.
Qed.

Lemma filters_never_miss_witness :
  selected (with_user no_filter "ALI") record_a = true.
Proof.
  apply (filters_never_miss (with_user no_filter "ALI") record_a);
    reflexivity.
Defined.

(** ** The Windows agent and the POST handler *)

Lemma post_without_user_name now db_now st b :
  Body.userName b = None ->
  exists st',
    post_print_jobs now db_now st b = (SaveFailed, st') /\ rows st' = rows st.
Proof.
  intros Hu.
  destruct (post_print_jobs now db_now st b) as [resp st'] eqn:E.
  pose proof (post_outcome _ _ _ _ _ _ E) as H.
  destruct resp as [r|].
  - exfalso. apply post_created_inv, insert_ok_inv in E.
    destruct E as (_ & _ & _ & _ & Hn & _). cbn in Hn.
    rewrite Hu in Hn. discriminate.
  - exists st'. split; [reflexivity | apply H].
Qed.

(** The serializer of the Windows agent names the members after the
    properties of the class (JobId, UserName, ...), and the POST handler
    reads jobId, userName, ...: it finds none of its fields in a report of
    the agent, so every such report is answered 500 and no record of it is
    stored. *)
Theorem windows_reports_are_never_stored
  (timestamp_of : string -> option Z) now db_now st (j : PrintJob.t) :
  destructure timestamp_of (Serialize j)
  = Some {| Body.jobId := None; Body.userName := None;
            Body.machineName := None; Body.printerName := None;
            Body.documentName := None; Body.pageCount := None;
            Body.printTime := None; Body.status := None;
            Body.fileSize := None |} /\
  exists st',
    post_json timestamp_of now db_now st (Serialize j)
    = Some (SaveFailed, st') /\
    rows st' = rows st.
Proof.
  assert (E : destructure timestamp_of (Serialize j)
              = Some {| Body.jobId := None; Body.userName := None;
                        Body.machineName := None; Body.printerName := None;
                        Body.documentName := None; Body.pageCount := None;
                        Body.printTime := None; Body.status := None;
                        Body.fileSize := None |}) by reflexivity.
  split; [exact E|].
  unfold post_json. rewrite E. cbn [option_map].
  match goal with |- context [post_print_jobs now db_now st ?b] =>
    destruct (post_without_user_name now db_now st b eq_refl)
      as (st' & H & Hr)
  end.
  exists st'. now rewrite H.
Qed.

(** ** The dashboard *)

(** Whatever the filter inputs, the job request of the dashboard is
    answered with success, and the page shows the first 50 records of a
    descending arrangement of the matching records: at most 50, the most
    recent ones, and all of them when no more than 50 match. *)
Theorem dashboard_shows_latest_fifty st f v :
  loadData st f v ->
  exists sorted,
    order_by_desc print_time (matching st (filters_query f)) sorted /\
    jobs_shown v = Some (firstn 50 sorted) /\
    (List.length (firstn 50 sorted) <= 50)%nat /\
    ((List.length (matching st (filters_query f)) <= 50)%nat ->
     Permutation (matching st (filters_query f)) (firstn 50 sorted)).
Proof.
  intros H. inversion H as [resp out Hresp _]; subst. cbn [jobs_shown].
  apply get_print_jobs_inv in Hresp.
  destruct Hresp as [[_ [Hneg|Hneg]]|(_ & _ & l & Hl & ->)];
    [cbn in Hneg; lia | cbn in Hneg; lia |].
  exists l. split; [exact Hl|]. split; [reflexivity|].
  split; [apply firstn_le_length|].
  intros Hlen. destruct Hl as [Hperm _].
  rewrite firstn_all2; [exact Hperm|].
  now rewrite <- (Permutation_length Hperm).
Qed.

Lemma loadData_run st f :
  loadData st f
    {| jobs_shown := match get_print_jobs_run st (filters_query f) with
                     | JobsOk data _ => Some data
                     | FetchFailed => None
                     end;
       cards_shown := displayStats (get_stats_run st no_window) |}.
Proof.
  apply (loaded st f (get_print_jobs_run st (filters_query f))
           (get_stats_run st no_window)).
  - apply get_print_jobs_run_ok.
  - apply get_stats_run_ok.
Qed.

Lemma dashboard_shows_latest_fifty_witness :
  exists sorted,
    order_by_desc print_time
      (matching store_scenario (filters_query filters_ali)) sorted /\
    jobs_shown view_ali = Some (firstn 50 sorted) /\
    (List.length (firstn 50 sorted) <= 50)%nat /\
    ((List.length (matching store_scenario (filters_query filters_ali))
      <= 50)%nat ->
     Permutation (matching store_scenario (filters_query filters_ali))
                 (firstn 50 sorted)).
Proof.
  apply (dashboard_shows_latest_fifty store_scenario filters_ali view_ali).
  apply loadData_run.
Defined.

(** The cards of the dashboard do not follow its filters: they show the
    number of all records and the sum of all page counts, and Active Users
    and Active Printers show the number of distinct user and printer names
    of the whole table, 10 at most. *)
Theorem dashboard_cards_ignore_filters st f v :
  loadData st f v ->
  totalJobsCard (cards_shown v) = jobs_number (rows st) /\
  totalPagesCard (cards_shown v) = pages_sum (rows st) /\
  activeUsers (cards_shown v)
    = Z.min 10 (Z.of_nat (List.length (names_of user_name (rows st)))) /\
  activePrinters (cards_shown v)
    = Z.min 10 (Z.of_nat (List.length (names_of printer_name (rows st)))).
Proof.
  intros H. inversion H as [resp out _ Hout]; subst.
  cbn [cards_shown displayStats totalJobsCard totalPagesCard activeUsers
       activePrinters].
  destruct (stats_totals_of _ _ _ Hout) as [Hj Hp].
  inversion Hout as [users printers (su & Hu & Eu) (sp & Hpr & Ep)]; subst.
  cbn [topUsers topPrinters totalJobs totalPages] in *.
  destruct (top_ten_add_up _ _ _ _ Hu) as (Lu & _).
  destruct (top_ten_add_up _ _ _ _ Hpr) as (Lp & _).
  assert (Hw : in_window st no_window = rows st).
  { unfold in_window. apply forallb_filter_id. now apply forallb_forall. }
  rewrite Hw in *. rewrite Hj, Hp, Lu, Lp.
  repeat split; lia.
Qed.

Lemma dashboard_cards_ignore_filters_witness :
  totalJobsCard (cards_shown view_ali) = jobs_number (rows store_scenario) /\
  totalPagesCard (cards_shown view_ali) = pages_sum (rows store_scenario) /\
  activeUsers (cards_shown view_ali)
    = Z.min 10
        (Z.of_nat (List.length (names_of user_name (rows store_scenario)))) /\
  activePrinters (cards_shown view_ali)
    = Z.min 10
        (Z.of_nat
           (List.length (names_of printer_name (rows store_scenario)))).
Proof.
  apply (dashboard_cards_ignore_filters store_scenario filters_ali view_ali).
  apply loadData_run.
Defined.

(** ** The sample rows of init.sql *)

Section OnConflictFacts.
Context {V A : Type}.
Variable key : A -> string.
Variable value_key : V -> string.
Variable value_fits : V -> bool.
Variable make_row : Z -> Z -> V -> A.
Hypothesis make_row_key :
  forall new_id db_now v, key (make_row new_id db_now v) = value_key v.

Lemma existsb_key rs k :
  existsb (fun r => String.eqb (key r) k) rs = true <-> In k (map key rs).
Proof.
  rewrite existsb_exists, in_map_iff. split.
  - intros (r & Hr & E). apply String.eqb_eq in E. eauto.
  - intros (r & E & Hr). exists r. split; [exact Hr|].
    now apply String.eqb_eq.
Qed.

(** A VALUES list that went through: the old rows are kept in place, the
    keys stay distinct, every key of the list is in the table, and a row
    was added only for a key that was not there. *)
Lemma insert_values_ok db_now : forall values rs next rs' next',
  NoDup (map key rs) ->
  insert_values key value_key value_fits make_row db_now values rs next
    = inr (rs', next') ->
  (exists added, rs' = rs ++ added /\
     forall r, In r added -> ~ In (key r) (map key rs)) /\
  NoDup (map key rs') /\
  (forall v, In v values -> In (value_key v) (map key rs')) /\
  (forall k, In k (map key rs) -> In k (map key rs')).
Proof.
  induction values as [|v values IH]; intros rs next rs' next' Hnd H.
  - simpl in H. inversion H; subst. repeat split; auto.
    + exists []. rewrite app_nil_r. split; [reflexivity|]. contradiction.
    + contradiction.
  - simpl in H.
    destruct (INT4_MAX <? next); [discriminate|].
    destruct (negb (value_fits v)); [discriminate|].
    destruct (existsb (fun r => String.eqb (key r) (value_key v)) rs) eqn:E.
    + apply existsb_key in E.
      destruct (IH _ _ _ _ Hnd H) as (Hadd & Hnd' & Hin & Hold).
      repeat split; auto.
      intros v' [<-|Hv']; [now apply Hold | now apply Hin].
    + assert (Hnew : ~ In (value_key v) (map key rs)).
      { intros Hin. apply existsb_key in Hin. congruence. }
      assert (Hnd1 : NoDup (map key (rs ++ [make_row next db_now v]))).
      { rewrite map_app. simpl. rewrite make_row_key.
        apply Permutation_NoDup with (l := value_key v :: map key rs).
        - apply Permutation_cons_append.
        - now constructor. }
      destruct (IH _ _ _ _ Hnd1 H) as ((added & -> & Hadd) & Hnd' & Hin & Hold).
      assert (Hkeep : forall k, In k (map key rs) ->
                In k (map key (rs ++ [make_row next db_now v]))).
      { intros k Hk. rewrite map_app. apply in_or_app. now left. }
      repeat split; auto.
      * exists (make_row next db_now v :: added).
        rewrite <- app_assoc. split; [reflexivity|].
        intros r [<-|Hr].
        -- now rewrite make_row_key.
        -- intros Hk. apply (Hadd r Hr). now apply Hkeep.
      * intros v' [<-|Hv']; [|now apply Hin].
        apply Hold. rewrite map_app. apply in_or_app. right.
        simpl. rewrite make_row_key. now left.
Qed.

(** A VALUES list whose keys are all in the table adds no row. *)
Lemma insert_values_again db_now : forall values rs next,
  (forall v, In v values -> In (value_key v) (map key rs)) ->
  forallb value_fits values = true ->
  next + Z.of_nat (List.length values) <= INT4_MAX + 1 ->
  insert_values key value_key value_fits make_row db_now values rs next
    = inr (rs, next + Z.of_nat (List.length values)).
Proof.
  induction values as [|v values IH]; intros rs next Hin Hfit Hseq.
  - simpl. unfold pg_ret. now rewrite Z.add_0_r.
  - simpl in Hfit. apply andb_prop in Hfit. destruct Hfit as [Hv Hfit].
    simpl List.length in *. rewrite Nat2Z.inj_succ in *.
    cbn [insert_values].
    assert (Hlt : (INT4_MAX <? next) = false) by (apply Z.ltb_ge; lia).
    rewrite Hlt, Hv. cbn [negb].
    assert (E : existsb (fun r => String.eqb (key r) (value_key v)) rs = true).
    { apply existsb_key. apply Hin. now left. }
    rewrite E, IH; auto.
    + f_equal. f_equal. lia.
    + intros v' Hv'. apply Hin. now right.
    + lia.
Qed.

(** A VALUES list that fits goes through when the sequence has values
    enough. *)
Lemma insert_values_total db_now : forall values rs next,
  forallb value_fits values = true ->
  next + Z.of_nat (List.length values) <= INT4_MAX + 1 ->
  exists rs',
    insert_values key value_key value_fits make_row db_now values rs next
      = inr (rs', next + Z.of_nat (List.length values)).
Proof.
  induction values as [|v values IH]; intros rs next Hfit Hseq.
  - exists rs. simpl. unfold pg_ret. now rewrite Z.add_0_r.
  - simpl in Hfit. apply andb_prop in Hfit. destruct Hfit as [Hv Hfit].
    simpl List.length in *. rewrite Nat2Z.inj_succ in *.
    cbn [insert_values].
    assert (Hlt : (INT4_MAX <? next) = false) by (apply Z.ltb_ge; lia).
    rewrite Hlt, Hv. cbn [negb].
    replace (next + Z.succ (Z.of_nat (List.length values)))
      with ((next + 1) + Z.of_nat (List.length values)) by lia.
    destruct (existsb (fun r => String.eqb (key r) (value_key v)) rs);
      apply IH; auto; lia.
Qed.

End OnConflictFacts.

Lemma init_sql_inv db_now db db' :
  init_sql db_now db = inr db' ->
  print_jobs db' = print_jobs db /\
  insert_values User.username (fun v => fst (fst v)) user_fits user_row
    db_now sample_users (table_rows (users db)) (table_next (users db))
  = inr (table_rows (users db'), table_next (users db')) /\
  insert_values Printer.name (fun v => fst (fst v)) printer_fits printer_row
    db_now sample_printers (table_rows (printers db))
    (table_next (printers db))
  = inr (table_rows (printers db'), table_next (printers db')).
Proof.
  unfold init_sql, insert_on_conflict_do_nothing, pg_bind, pg_ret.
  destruct (insert_values User.username _ user_fits user_row db_now
              sample_users _ _) as [e|[us un]]; [discriminate|].
  destruct (insert_values Printer.name _ printer_fits printer_row db_now
              sample_printers _ _) as [e|[ps pn]]; [discriminate|].
  intros H. inversion H; subst. cbn. auto.
Qed.

(** On a database whose sequences have values left, [init.sql] goes
    through; it keeps every row of the three tables in place and adds rows
    only for names that were not there; afterwards the three sample users
    and the two sample printers are in their tables and the names are
    still distinct. *)
Theorem init_sql_adds_missing_samples db_now db :
  unique_keys db ->
  table_next (users db) + 3 <= INT4_MAX + 1 ->
  table_next (printers db) + 2 <= INT4_MAX + 1 ->
  exists db',
    init_sql db_now db = inr db' /\
    print_jobs db' = print_jobs db /\
    (exists added,
       table_rows (users db') = table_rows (users db) ++ added /\
       forall r, In r added ->
         ~ In (User.username r) (map User.username (table_rows (users db)))) /\
    (exists added,
       table_rows (printers db') = table_rows (printers db) ++ added /\
       forall r, In r added ->
         ~ In (Printer.name r)
              (map Printer.name (table_rows (printers db)))) /\
    unique_keys db' /\
    (forall v, In v sample_users ->
       In (fst (fst v)) (map User.username (table_rows (users db')))) /\
    (forall v, In v sample_printers ->
       In (fst (fst v)) (map Printer.name (table_rows (printers db')))).
Proof.
  intros [Hu Hp] Hsu Hsp.
  destruct (insert_values_total User.username (fun v => fst (fst v))
              user_fits user_row db_now sample_users
              (table_rows (users db)) (table_next (users db))
              eq_refl Hsu) as (us & Eu).
  destruct (insert_values_total Printer.name (fun v => fst (fst v))
              printer_fits printer_row db_now sample_printers
              (table_rows (printers db)) (table_next (printers db))
              eq_refl Hsp) as (ps & Ep).
  eexists. split.
  { unfold init_sql, insert_on_conflict_do_nothing, pg_bind.
    rewrite Eu, Ep. reflexivity. }
  cbn [print_jobs users printers table_rows fst].
  destruct (insert_values_ok User.username (fun v => fst (fst v)) user_fits
              user_row (fun _ _ _ => eq_refl) db_now _ _ _ _ _ Hu Eu)
    as (Hau & Hndu & Hinu & _).
  destruct (insert_values_ok Printer.name (fun v => fst (fst v)) printer_fits
              printer_row (fun _ _ _ => eq_refl) db_now _ _ _ _ _ Hp Ep)
    as (Hap & Hndp & Hinp & _).
  repeat split; auto.
Qed.

Lemma init_sql_adds_missing_samples_witness :
  exists db',
    init_sql 1000 {| print_jobs := store_a;
                     users := mk_table [] 1; printers := mk_table [] 1 |}
    = inr db' /\
    print_jobs db' = store_a /\
    (exists added,
       table_rows (users db') = [] ++ added /\
       forall r, In r added -> ~ In (User.username r) (map User.username [])) /\
    (exists added,
       table_rows (printers db') = [] ++ added /\
       forall r, In r added -> ~ In (Printer.name r) (map Printer.name [])) /\
    unique_keys db' /\
    (forall v, In v sample_users ->
       In (fst (fst v)) (map User.username (table_rows (users db')))) /\
    (forall v, In v sample_printers ->
       In (fst (fst v)) (map Printer.name (table_rows (printers db')))).
Proof.
  apply (init_sql_adds_missing_samples 1000
           {| print_jobs := store_a;
              users := mk_table [] 1; printers := mk_table [] 1 |}).
  - split; constructor.
  - cbn. unfold INT4_MAX. lia.
  - cbn. unfold INT4_MAX. lia.
Defined.

(** Running [init.sql] again on a database it has gone through changes no
    row of any table. *)
Theorem init_sql_again_changes_nothing db_now db_now' db db' :
  unique_keys db ->
  init_sql db_now db = inr db' ->
  table_next (users db') + 3 <= INT4_MAX + 1 ->
  table_next (printers db') + 2 <= INT4_MAX + 1 ->
  exists db'',
    init_sql db_now' db' = inr db'' /\
    print_jobs db'' = print_jobs db' /\
    table_rows (users db'') = table_rows (users db') /\
    table_rows (printers db'') = table_rows (printers db').
Proof.
  intros [Hu Hp] H Hsu Hsp.
  apply init_sql_inv in H. destruct H as (_ & Eu & Ep).
  destruct (insert_values_ok User.username (fun v => fst (fst v)) user_fits
              user_row (fun _ _ _ => eq_refl) db_now _ _ _ _ _ Hu Eu)
    as (_ & _ & Hinu & _).
  destruct (insert_values_ok Printer.name (fun v => fst (fst v)) printer_fits
              printer_row (fun _ _ _ => eq_refl) db_now _ _ _ _ _ Hp Ep)
    as (_ & _ & Hinp & _).
  pose proof (insert_values_again User.username (fun v => fst (fst v))
                user_fits user_row db_now' sample_users
                (table_rows (users db')) (table_next (users db'))
                Hinu eq_refl Hsu) as Au.
  pose proof (insert_values_again Printer.name (fun v => fst (fst v))
                printer_fits printer_row db_now' sample_printers
                (table_rows (printers db')) (table_next (printers db'))
                Hinp eq_refl Hsp) as Ap.
  eexists. split.
  { unfold init_sql, insert_on_conflict_do_nothing, pg_bind.
    rewrite Au, Ap. reflexivity. }
  cbn. auto.
Qed.

Lemma init_sql_again_changes_nothing_witness :
  exists db'',
    init_sql 2000 database_seeded = inr db'' /\
    print_jobs db'' = print_jobs database_seeded /\
    table_rows (users db'') = table_rows (users database_seeded) /\
    table_rows (printers db'') = table_rows (printers database_seeded).
Proof.
  apply (init_sql_again_changes_nothing 1000 2000 database_fresh
           database_seeded).
  - split; constructor.
  - reflexivity.
  - cbn. unfold INT4_MAX. lia.
  - cbn. unfold INT4_MAX. lia.
Defined.

(** ** The Ubuntu agent *)

Lemma decimal_value_nonneg s : forall acc,
  0 <= acc ->
  (forall c, In c (list_ascii_of_string s) -> Ubuntu.is_decimal c = true) ->
  0 <= Ubuntu.decimal_value acc s.
Proof.
  induction s as [|c s IH]; intros acc Hacc Hs;
    cbn [Ubuntu.decimal_value]; [exact Hacc|].
  apply IH.
  - assert (Hc : Ubuntu.is_decimal c = true) by (apply Hs; now left).
    unfold Ubuntu.is_decimal in Hc. apply andb_prop in Hc.
    destruct Hc as [Hc _]. apply Nat.leb_le in Hc. lia.
  - intros c' Hc'. apply Hs. now right.
Qed.

Lemma leading_decimals_decimal s c :
  In c (list_ascii_of_string (Ubuntu.leading_decimals s)) ->
  Ubuntu.is_decimal c = true.
Proof.
  induction s as [|a s IH]; simpl; [contradiction|].
  destruct (Ubuntu.is_decimal a) eqn:E; simpl; [|contradiction].
  intros [<-|H]; auto.
Qed.

Lemma search_decimals_decimal s ds c :
  Ubuntu.search_decimals s = Some ds ->
  In c (list_ascii_of_string ds) -> Ubuntu.is_decimal c = true.
Proof.
  induction s as [|a s IH]; simpl; [discriminate|].
  destruct (Ubuntu.is_decimal a) eqn:E; [|exact IH].
  intros H. inversion H; subst. simpl.
  intros [<-|Hc]; [exact E|]. eapply leading_decimals_decimal; eassumption.
Qed.


Lemma read_size_estimated limit d part :
  Ubuntu.estimated d -> Ubuntu.estimated (Ubuntu.read_size limit d part).
Proof.
  intros Hd. unfold Ubuntu.read_size.
  destruct (contains "bytes" (lower part) || Ubuntu.isdigit part);
    [|exact Hd].
  destruct (Ubuntu.search_decimals part) as [ds|] eqn:E; [|exact Hd].
  unfold Ubuntu.int_of.
  assert (Hv : 0 <= Ubuntu.decimal_value 0 ds).
  { apply decimal_value_nonneg; [lia|].
    intros c. now apply (search_decimals_decimal part). }
  destruct limit as [limit|];
    [destruct (limit <? String.length ds)%nat; [exact Hd|]|];
    split; cbn; auto.
Qed.

Lemma fold_read_size_estimated limit parts : forall d,
  Ubuntu.estimated d ->
  Ubuntu.estimated (fold_left (Ubuntu.read_size limit) parts d).
Proof.
  induction parts as [|part parts IH]; intros d Hd; simpl; [exact Hd|].
  apply IH. now apply read_size_estimated.
Qed.

Lemma scan_lines_estimated limit job_id lines : forall d,
  Ubuntu.estimated d ->
  Ubuntu.estimated (Ubuntu.scan_lines limit job_id lines d).
Proof.
  induction lines as [|line lines IH]; intros d Hd; simpl; [exact Hd|].
  destruct (contains job_id line); [|now apply IH].
  destruct (3 <? List.length (Ubuntu.split line))%nat; [|now apply IH].
  apply fold_read_size_estimated. exact Hd.
Qed.

Lemma get_job_details_estimated limit out job_id :
  Ubuntu.estimated (Ubuntu.get_job_details limit out job_id).
Proof.
  assert (Hd : Ubuntu.estimated (Ubuntu.default_details job_id)).
  { split; [cbn; lia | reflexivity]. }
  destruct out as [out|]; simpl; [|exact Hd].
  now apply scan_lines_estimated.
Qed.

Lemma parse_job_line_inv m line job :
  Ubuntu.parse_job_line m line = Some job ->
  exists printer_job user_name rest job_id printer_name d,
    Ubuntu.split line = printer_job :: user_name :: rest /\
    rest <> [] /\
    d = Ubuntu.get_job_details (Ubuntu.max_str_digits m)
          (Ubuntu.lpq m printer_name) job_id /\
    job = [ ("jobId", JString ("cups-" ++ job_id ++ "-" ++ Ubuntu.id_clock m));
            ("userName", JString user_name);
            ("machineName", JString (Ubuntu.nodename m));
            ("printerName", JString printer_name);
            ("documentName", JString (Ubuntu.document_name d));
            ("pageCount", JNumber (Ubuntu.page_count d));
            ("printTime", JString (Ubuntu.now_iso m));
            ("status", JString "completed");
            ("fileSize", JNumber (Ubuntu.file_size d)) ]%string.
Proof.
  unfold Ubuntu.parse_job_line.
  destruct (Ubuntu.split line) as [|printer_job [|user_name [|x rest]]];
    try discriminate.
  destruct (match Ubuntu.rsplit_dash printer_job with
            | Some (before, after) =>
                (Ubuntu.spaces_for_underscores before, after)
            | None => (Ubuntu.spaces_for_underscores printer_job,
                       Ubuntu.fallback_clock m)
            end) as [printer_name job_id].
  intros H. inversion H; subst.
  exists printer_job, user_name, (x :: rest), job_id, printer_name.
  eexists. repeat split. discriminate.
Qed.

(** Every report of the Ubuntu agent has a file size that is not
    negative and, as its page count, the pages estimated from that size:
    max(1, fileSize // 50000), which is 1 for the defaults. *)
Theorem ubuntu_page_count_is_estimated m line job :
  Ubuntu.parse_job_line m line = Some job ->
  exists pages size,
    member "pageCount" job = Some (JNumber pages) /\
    member "fileSize" job = Some (JNumber size) /\
    0 <= size /\ 1 <= pages /\ pages = Z.max 1 (size / 50000).
Proof.
  intros H. apply parse_job_line_inv in H.
  destruct H as (pj & u & rest & job_id & pn & d & _ & _ & Hd & ->).
  pose proof (get_job_details_estimated (Ubuntu.max_str_digits m)
                (Ubuntu.lpq m pn) job_id) as [Hs Hp].
  rewrite <- Hd in Hs, Hp.
  exists (Ubuntu.page_count d), (Ubuntu.file_size d).
  repeat split; auto. lia.
Qed.

Lemma ubuntu_page_count_is_estimated_witness :
  exists pages size,
    member "pageCount" report_42 = Some (JNumber pages) /\
    member "fileSize" report_42 = Some (JNumber size) /\
    0 <= size /\ 1 <= pages /\ pages = Z.max 1 (size / 50000).
Proof.
  apply (ubuntu_page_count_is_estimated moment_ws7 line_42 report_42).
  reflexivity.
Defined.




Lemma parse_job_line_none m line :
  Ubuntu.parse_job_line m line = None <->
  (List.length (Ubuntu.split line) < 3)%nat.
Proof.
  unfold Ubuntu.parse_job_line.
  destruct (Ubuntu.split line) as [|a [|b [|c rest]]]; simpl;
    try (split; [intros _; lia | reflexivity]).
  destruct (match Ubuntu.rsplit_dash a with
            | Some (before, after) =>
                (Ubuntu.spaces_for_underscores before, after)
            | None => (Ubuntu.spaces_for_underscores a,
                       Ubuntu.fallback_clock m)
            end) as [pn jid].
  split; [discriminate | lia].
Qed.

Lemma is_processed_cons line x processed :
  Ubuntu.is_processed processed line = true ->
  Ubuntu.is_processed (x :: processed) line = true.
Proof.
  unfold Ubuntu.is_processed. simpl. intros ->. apply orb_true_r.
Qed.

Lemma is_processed_incl line processed processed' :
  incl processed processed' ->
  Ubuntu.is_processed processed line = true ->
  Ubuntu.is_processed processed' line = true.
Proof.
  unfold Ubuntu.is_processed. intros Hincl H.
  apply existsb_exists in H. destruct H as (x & Hx & E).
  apply existsb_exists. exists x. split; [now apply Hincl | exact E].
Qed.

(** After the loop over the lines, the cache holds what it held, every
    line is one that a poll passes over, and there are no more reports
    than lines. *)
Lemma read_lines_marks world lines : forall k processed jobs processed',
  Ubuntu.read_lines world k lines processed = (jobs, processed') ->
  incl processed processed' /\
  Forall (Ubuntu.passed_over processed') lines /\
  (List.length jobs <= List.length lines)%nat.
Proof.
  induction lines as [|raw lines IH]; intros k processed jobs processed' H.
  - simpl in H. inversion H; subst.
    split; [apply incl_refl|]. split; [constructor | simpl; lia].
  - cbn [Ubuntu.read_lines] in H.
    destruct (negb (Ubuntu.is_empty (Ubuntu.strip raw))
              && negb (Ubuntu.is_processed processed (Ubuntu.strip raw)))
      eqn:E.
    + destruct (Ubuntu.parse_job_line (world k) (Ubuntu.strip raw))
        as [job|] eqn:P.
      * destruct (Ubuntu.read_lines world (S k) lines
                    (Ubuntu.strip raw :: processed)) as [js ps] eqn:R.
        inversion H; subst. apply IH in R. destruct R as (Hi & Hf & Hl).
        split; [|split].
        -- intros x Hx. apply Hi. now right.
        -- constructor; [|exact Hf]. right. left.
           apply (is_processed_incl _ (Ubuntu.strip raw :: processed));
             [exact Hi|].
           unfold Ubuntu.is_processed. simpl.
           now rewrite String.eqb_refl.
        -- simpl. lia.
      * apply IH in H. destruct H as (Hi & Hf & Hl).
        split; [exact Hi|]. split; [|simpl; lia].
        constructor; [|exact Hf]. right. right.
        now apply (parse_job_line_none (world k)).
    + apply IH in H. destruct H as (Hi & Hf & Hl).
      split; [exact Hi|]. split; [|simpl; lia].
      constructor; [|exact Hf].
      apply andb_false_iff in E. destruct E as [E|E].
      * left. now apply negb_false_iff in E.
      * right. left. apply negb_false_iff in E.
        now apply (is_processed_incl _ processed).
Qed.

(** A loop over lines that are all passed over reports nothing and
    leaves the cache as it is. *)
Lemma read_lines_nothing world lines processed : forall k,
  Forall (Ubuntu.passed_over processed) lines ->
  Ubuntu.read_lines world k lines processed = ([], processed).
Proof.
  induction lines as [|raw lines IH]; intros k H; [reflexivity|].
  inversion H as [|? ? Hraw Hrest]; subst.
  cbn [Ubuntu.read_lines].
  destruct Hraw as [E|[E|E]].
  - rewrite E. simpl. now apply IH.
  - rewrite E, andb_false_r. now apply IH.
  - apply (parse_job_line_none (world k)) in E. rewrite E.
    destruct (negb (Ubuntu.is_empty (Ubuntu.strip raw))
              && negb (Ubuntu.is_processed processed (Ubuntu.strip raw)));
      now apply IH.
Qed.

Lemma ubuntu_poll_once_aux world result processed jobs processed' :
  Ubuntu.get_print_jobs world result processed = (jobs, processed') ->
  incl processed processed' /\
  (forall stdout, result = Ubuntu.lpstat_done 0 stdout ->
     (List.length jobs
      <= List.length (Ubuntu.split_lines (Ubuntu.strip stdout)))%nat) /\
  forall world',
    Ubuntu.get_print_jobs world' result processed' = ([], processed').
Proof.
  intros H. destruct result as [rc stdout|]; simpl in *.
  - destruct (rc =? 0) eqn:E.
    + apply read_lines_marks in H. destruct H as (Hi & Hf & Hl).
      split; [exact Hi|]. split.
      * intros out Hout. inversion Hout; subst. exact Hl.
      * intros world'. now apply read_lines_nothing.
    + inversion H; subst. split; [apply incl_refl|]. split; [|reflexivity].
      intros out Hout. inversion Hout; subst. discriminate.
  - inversion H; subst. split; [apply incl_refl|]. split; [|reflexivity].
    intros out Hout. discriminate.
Qed.

(** A poll keeps what the cache held and reports no more jobs than
    [lpstat] printed lines; and a second poll that finds the same [lpstat]
    output reports nothing and leaves the cache as it is: a line is
    reported once, however often [lpstat] prints it. *)
Theorem ubuntu_poll_reports_a_line_once world result processed jobs processed' :
  Ubuntu.get_print_jobs world result processed = (jobs, processed') ->
  incl processed processed' /\
  (forall stdout, result = Ubuntu.lpstat_done 0 stdout ->
     (List.length jobs
      <= List.length (Ubuntu.split_lines (Ubuntu.strip stdout)))%nat) /\
  forall world',
    Ubuntu.get_print_jobs world' result processed' = ([], processed').
Proof. apply ubuntu_poll_once_aux. Qed.

Lemma ubuntu_poll_reports_a_line_once_witness :
  incl [] [line_42] /\
  (forall stdout, lpstat_42 = Ubuntu.lpstat_done 0 stdout ->
     (List.length [report_42]
      <= List.length (Ubuntu.split_lines (Ubuntu.strip stdout)))%nat) /\
  forall world',
    Ubuntu.get_print_jobs world' lpstat_42 [line_42] = ([], [line_42]).
Proof.
  apply (ubuntu_poll_reports_a_line_once (fun _ => moment_ws7) lpstat_42 []
           [report_42] [line_42]).
  reflexivity.
Defined.

(** After a round of the monitor that did not clear the cache, a round
    that finds the same [lpstat] output sends nothing: the store stays as
    the first round left it.  A report that was not delivered, or that the
    server answered with 500, is not sent again. *)
Theorem ubuntu_round_sends_a_line_once
  (timestamp_of : string -> option Z) world net result processed st
  processed' st' :
  Ubuntu.monitor_round timestamp_of world net result false processed st
    = Some (processed', st') ->
  forall world' net' hour_passed,
    exists processed'',
      Ubuntu.monitor_round timestamp_of world' net' result hour_passed
        processed' st'
      = Some (processed'', st').
Proof.
  unfold Ubuntu.monitor_round. intros H world' net' hour_passed.
  destruct (Ubuntu.get_print_jobs world result processed)
    as [jobs ps] eqn:G.
  destruct (Ubuntu.send_all timestamp_of net 0 jobs st) as [st1|];
    [|discriminate].
  cbn [andb] in H. inversion H; subst.
  destruct (ubuntu_poll_once_aux _ _ _ _ _ G) as (_ & _ & Hagain).
  rewrite (Hagain world'). cbn [Ubuntu.send_all]. eexists. reflexivity.
Qed.

Lemma ubuntu_round_sends_a_line_once_witness :
  exists processed'',
    Ubuntu.monitor_round (fun _ => Some 1718180000) (fun _ => moment_ws7)
      (fun _ => Ubuntu.delivered 2000 2001) lpstat_42 true
      [line_42] store_42
    = Some (processed'', store_42).
Proof.
  apply (ubuntu_round_sends_a_line_once (fun _ => Some 1718180000)
           (fun _ => moment_ws7) (fun _ => Ubuntu.delivered 1000 1001)
           lpstat_42 [] empty_store [line_42] store_42 eq_refl
           (fun _ => moment_ws7) (fun _ => Ubuntu.delivered 2000 2001) true).
Defined.

Example store_42_rows :
  map (fun r => (id r, user_name r, printer_name r, page_count r, status r))
      (rows store_42)
  = [(1, "alice", "HP LaserJet", Some 2, Some "completed")]%string.
Proof. reflexivity. Qed.

(** ** The types of the columns *)

Lemma string_take_length n : forall s,
  (String.length (string_take n s) <= n)%nat.
Proof.
  induction n as [|n IH]; intros s; [simpl; lia|].
  destruct s as [|c s]; simpl; [lia|]. specialize (IH s). lia.
Qed.

Lemma varchar_short n s s' :
  varchar n s = inr s' -> (String.length s' <=? n)%nat = true.
Proof.
  unfold varchar. destruct (String.length s <=? n)%nat eqn:E.
  - intros H. inversion H; subst. exact E.
  - destruct (all_spaces (string_drop n s)); [|discriminate].
    intros H. inversion H; subst. apply Nat.leb_le. apply string_take_length.
Qed.

Lemma varchar_null_short n v w :
  varchar_null n v = inr w -> short_null n w = true.
Proof.
  destruct v as [s|]; simpl.
  - destruct (varchar n s) as [e|s'] eqn:E; simpl; [discriminate|].
    intros H. inversion H; subst. simpl. eapply varchar_short; eassumption.
  - intros H. inversion H; subst. reflexivity.
Qed.

Lemma bind_int_in_range lo hi v w :
  bind_int lo hi v = inr w -> in_range_null lo hi w = true.
Proof.
  destruct v as [n|]; simpl.
  - destruct ((lo <=? n) && (n <=? hi)) eqn:E; [|discriminate].
    intros H. inversion H; subst. exact E.
  - intros H. inversion H; subst. reflexivity.
Qed.

Lemma next_id_positive st : reachable st -> 1 <= next_id st.
Proof.
  induction 1 as [|? ? ? ? resp ? ? IH Hp]; [cbn; lia|].
  apply post_outcome in Hp. destruct resp; lia.
Qed.

(** In a store built by ingestion every row is within the types of its
    columns: no text is longer than its VARCHAR, the page count is an
    INTEGER, the file size a BIGINT, and the id a positive INTEGER; a text
    that was longer by spaces only has been cut. *)
Theorem reachable_rows_within_columns st :
  reachable st -> forallb within_columns (rows st) = true.
Proof.
  induction 1 as [|now db_now st b resp st' Hr IH Hpost]; [reflexivity|].
  pose proof (next_id_positive st Hr) as Hone.
  pose proof (post_outcome _ _ _ _ _ _ Hpost) as Hout.
  destruct resp as [r|].
  - destruct Hout as (-> & Hid & _).
    rewrite forallb_app, IH. simpl. rewrite andb_true_r.
    apply post_created_inv, insert_ok_inv in Hpost.
    destruct Hpost as (Hseq & Hpc & Hfs & Hj & Hu & Hm & Hp & Hd & Hs & _).
    unfold within_columns.
    rewrite (varchar_null_short _ _ _ Hj), (varchar_null_short _ _ _ Hd),
      (varchar_null_short _ _ _ Hs), (bind_int_in_range _ _ _ _ Hpc),
      (bind_int_in_range _ _ _ _ Hfs).
    apply varchar_null_short in Hu, Hm, Hp. simpl in Hu, Hm, Hp.
    rewrite Hu, Hm, Hp, Hid. simpl.
    apply andb_true_intro. split; [apply Z.leb_le | apply Z.leb_le]; lia.
  - destruct Hout as [-> _]. exact IH.
Qed.

Lemma reachable_rows_within_columns_witness :
  forallb within_columns (rows store_scenario) = true.
Proof.
  apply (reachable_rows_within_columns store_scenario).
  exact (proj2 (proj2 (proj2 (proj2 sample_stores_reachable)))).
Defined.
